(** * Helper functions of the external storage provisioner library (package util)

    A shallow embedding of [util/util.go]: allocation rounding on 64-bit
    signed integers, access-mode membership, storage-class and volume-mode
    accessors over volume and claim descriptors, cluster DNS discovery,
    host lookup against a DNS server and host:port helpers, followed by the
    properties of these functions. *)

From Stdlib Require Import ZArith Lia Ascii String.
From stdpp Require Import base option list strings pretty gmap.

Local Open Scope string_scope.
Local Open Scope Z_scope.

(** ** The Go runtime pieces the package relies on *)

Module Go.

(** Run-time panics that the modelled code could raise. *)
Inductive panic : Set :=
| NilDereference
| DivideByZero.

(** The outcome of evaluating a Go expression: a value, or a panic. *)
Inductive result (A : Type) : Type :=
| Ok (a : A)
| Panic (p : panic).
Arguments Ok {A} a.
Arguments Panic {A} p.

Definition bind {A B} (r : result A) (k : A -> result B) : result B :=
  match r with
  | Ok a => k a
  | Panic p => Panic p
  end.

(** A pointer is either nil or the address of a value; only the pointed-to
    value matters to this package, which never writes through a pointer. *)
Definition ptr (A : Type) : Type := option A.

Definition is_nil {A} (p : ptr A) : bool :=
  match p with
  | None => true
  | Some _ => false
  end.

(** [*p]: dereferencing nil panics. *)
Definition deref {A} (p : ptr A) : result A :=
  match p with
  | Some a => Ok a
  | None => Panic NilDereference
  end.

(** *** int64: two's-complement integers of 64 bits, carried by [Z] *)

Definition min_int64 : Z := - 2 ^ 63.
Definition max_int64 : Z := 2 ^ 63 - 1.

Definition is_int64 (z : Z) : Prop := min_int64 <= z <= max_int64.

(** Reduction of a mathematical integer to its int64 representative. *)
Definition wrap64 (z : Z) : Z := (z + 2 ^ 63) mod 2 ^ 64 - 2 ^ 63.

Definition add64 (a b : Z) : Z := wrap64 (a + b).
Definition sub64 (a b : Z) : Z := wrap64 (a - b).
Definition mul64 (a b : Z) : Z := wrap64 (a * b).

(** Integer division truncates toward zero and panics on a zero divisor;
    [min_int64 / -1] wraps back to [min_int64]. *)
Definition div64 (a b : Z) : result Z :=
  if b =? 0 then Panic DivideByZero else Ok (wrap64 (Z.quot a b)).

(** A map index expression with the comma-ok form, [v, found := m[k]]:
    a missing key (also in a nil map) yields the zero value and [false]. *)
Definition map_index (m : gmap string string) (k : string) : string * bool :=
  match m !! k with
  | Some v => (v, true)
  | None => ("", false)
  end.

(** A value of the [error] interface, observed through its message. *)
Record error : Set := { Error : string }.

End Go.

#[global] Instance result_ret : MRet Go.result := @Go.Ok.
#[global] Instance result_bind : MBind Go.result := fun A B k r => Go.bind r k.

(** ** The API types read by the package (k8s.io/api/core/v1, metav1) *)

Module metav1.
Definition NamespaceSystem : string := "kube-system".
End metav1.

Module v1.
Import Go.

(** Access modes and volume modes are string-typed enumerations. *)
Definition PersistentVolumeAccessMode : Set := string.
Definition ReadWriteOnce : PersistentVolumeAccessMode := "ReadWriteOnce".
Definition ReadOnlyMany : PersistentVolumeAccessMode := "ReadOnlyMany".
Definition ReadWriteMany : PersistentVolumeAccessMode := "ReadWriteMany".
Definition ReadWriteOncePod : PersistentVolumeAccessMode := "ReadWriteOncePod".

Definition PersistentVolumeMode : Set := string.
Definition PersistentVolumeBlock : PersistentVolumeMode := "Block".
Definition PersistentVolumeFilesystem : PersistentVolumeMode := "Filesystem".

Definition BetaStorageClassAnnotation : string :=
  "volume.beta.kubernetes.io/storage-class".

(** Only the fields the package reads are kept; [Annotations] is the
    field promoted from the embedded object metadata. *)
Record PersistentVolumeSpec : Type :=
  { pv_StorageClassName : string }.

Record PersistentVolume : Type :=
  { pv_Annotations : gmap string string;
    pv_Spec : PersistentVolumeSpec }.

Record PersistentVolumeClaimSpec : Type :=
  { pvc_StorageClassName : ptr string;
    pvc_VolumeMode : ptr PersistentVolumeMode }.

Record PersistentVolumeClaim : Type :=
  { pvc_Annotations : gmap string string;
    pvc_Spec : PersistentVolumeClaimSpec }.

Record ServiceSpec : Set :=
  { ClusterIP : string }.

Record Service : Set :=
  { svc_Spec : ServiceSpec }.

End v1.

(** ** The DNS library types read by the package (github.com/miekg/dns) *)

Module dns.

Definition TypeA : Z := 1.
Definition TypeCNAME : Z := 5.
Definition ClassINET : Z := 1.

(** [net.IP]: a byte slice. *)
Definition IP : Set := list Byte.byte.

Record Question : Set :=
  { Name : string; Qtype : Z; Qclass : Z }.

Record RR_Header : Set :=
  { hdr_Name : string; Rrtype : Z; Class : Z; Ttl : Z }.

(** The record type [dns.A]. *)
Record A : Set :=
  { A_Hdr : RR_Header; A_A : IP }.

(** A resource record is a value of the [RR] interface: an address
    record, or a record of another dynamic type. *)
Inductive RR : Set :=
| RR_A (t : A)
| RR_CNAME (hdr : RR_Header) (target : string)
| RR_Other (hdr : RR_Header) (rdata : list Byte.byte).

(** The type assertion [t, ok := a.( *dns.A )]; the records of a decoded
    message never hold a nil [*dns.A]. *)
Definition assert_A (a : RR) : A * bool :=
  match a with
  | RR_A t => (t, true)
  | _ => ({| A_Hdr := {| hdr_Name := ""; Rrtype := 0; Class := 0; Ttl := 0 |};
            A_A := [] |}, false)
  end.

Record Msg : Set :=
  { Id : Z;
    RecursionDesired : bool;
    Question_ : list Question;
    Answer : list RR }.

(** [new(dns.Msg)] *)
Definition new_Msg : Msg :=
  {| Id := 0; RecursionDesired := false; Question_ := []; Answer := [] |}.

(** [m.SetQuestion(z, t)], with [id] the fresh identifier drawn by the
    library. *)
Definition SetQuestion (m : Msg) (z : string) (t : Z) (id : Z) : Msg :=
  {| Id := id;
     RecursionDesired := true;
     Question_ := [ {| Name := z; Qtype := t; Qclass := ClassINET |} ];
     Answer := Answer m |}.

End dns.

(** ** Programs that talk to the cluster API, the DNS server and the logger *)

Module io.
Import Go.

Inductive LogValue : Set :=
| LogString (s : string)
| LogError (e : error).

(** [logger.V(level).Info(msg, kvs...)] and [logger.Error(err, msg, kvs...)]. *)
Inductive LogEntry : Set :=
| Info (level : Z) (msg : string) (kvs : list (string * LogValue))
| Err (err : option error) (msg : string) (kvs : list (string * LogValue)).

(** A program is a tree of the calls it makes outward; each continuation
    receives what the call returned. *)
Inductive prog (R : Type) : Type :=
| Ret (r : R)
| Throw (p : panic)
| ServicesGet (namespace name : string)
              (k : ptr v1.Service * option error -> prog R)
| DnsId (k : Z -> prog R)
| DnsExchange (m : dns.Msg) (addr : string)
              (k : ptr dns.Msg * option error -> prog R)
| Log (e : LogEntry) (k : prog R).
Arguments Ret {R} r.
Arguments Throw {R} p.
Arguments ServicesGet {R} namespace name k.
Arguments DnsId {R} k.
Arguments DnsExchange {R} m addr k.
Arguments Log {R} e k.

Fixpoint bind {R S} (p : prog R) (f : R -> prog S) : prog S :=
  match p with
  | Ret r => f r
  | Throw e => Throw e
  | ServicesGet ns n k => ServicesGet ns n (fun x => bind (k x) f)
  | DnsId k => DnsId (fun x => bind (k x) f)
  | DnsExchange m a k => DnsExchange m a (fun x => bind (k x) f)
  | Log e k => Log e (bind k f)
  end.

Definition services_get (namespace name : string) :
  prog (ptr v1.Service * option error) := ServicesGet namespace name Ret.
Definition dns_id : prog Z := DnsId Ret.
Definition dns_exchange (m : dns.Msg) (addr : string) :
  prog (ptr dns.Msg * option error) := DnsExchange m addr Ret.
Definition log (e : LogEntry) : prog unit := Log e (Ret tt).

Definition lift {R} (r : result R) : prog R :=
  match r with
  | Ok a => Ret a
  | Panic p => Throw p
  end.

(** What a run of a program did, in order. *)
Inductive event : Set :=
| EvGet (namespace name : string)
| EvId
| EvExchange (m : dns.Msg) (addr : string)
| EvLog (e : LogEntry).

(** The environment of a run: the cluster client
    ([client.CoreV1().Services(ns).Get(ctx, name, opts)]) and the DNS
    library ([dns.Id], [dns.Exchange]) answer from a state [W] that they
    may change. *)
Record World (W : Type) : Type :=
  { Services_Get : string -> string -> W -> (ptr v1.Service * option error) * W;
    Id_ : W -> Z * W;
    Exchange : dns.Msg -> string -> W -> (ptr dns.Msg * option error) * W }.
Arguments Services_Get {W} _ _ _ _.
Arguments Id_ {W} _ _.
Arguments Exchange {W} _ _ _ _.

Fixpoint exec {W R} (world : World W) (p : prog R) (w : W) :
  result R * W * list event :=
  match p with
  | Ret r => (Ok r, w, [])
  | Throw e => (Panic e, w, [])
  | ServicesGet ns n k =>
      let '(x, w1) := Services_Get world ns n w in
      let '(r, w2, tr) := exec world (k x) w1 in
      (r, w2, EvGet ns n :: tr)
  | DnsId k =>
      let '(x, w1) := Id_ world w in
      let '(r, w2, tr) := exec world (k x) w1 in
      (r, w2, EvId :: tr)
  | DnsExchange m a k =>
      let '(x, w1) := Exchange world m a w in
      let '(r, w2, tr) := exec world (k x) w1 in
      (r, w2, EvExchange m a :: tr)
  | Log e k =>
      let '(r, w2, tr) := exec world k w in
      (r, w2, EvLog e :: tr)
  end.

End io.

#[global] Instance prog_ret : MRet io.prog := @io.Ret.
#[global] Instance prog_bind : MBind io.prog := fun A B f p => io.bind p f.

(** ** Host and port syntax of the standard library (package net) *)

Module net.
Import Go.

(** Whether the byte [c] occurs in [s]. *)
Fixpoint has_byte (s : string) (c : ascii) : bool :=
  match s with
  | EmptyString => false
  | String a rest => Ascii.eqb a c || has_byte rest c
  end.

(** Index of the first byte [c] of [s], or -1. *)
Fixpoint IndexByteString (s : string) (c : ascii) : Z :=
  match s with
  | EmptyString => -1
  | String a rest =>
      if Ascii.eqb a c then 0
      else let i := IndexByteString rest c in
           if i <? 0 then -1 else i + 1
  end.

(** Index of the last byte [c] of [s], or -1. *)
Fixpoint LastIndexByteString (s : string) (c : ascii) : Z :=
  match s with
  | EmptyString => -1
  | String a rest =>
      let i := LastIndexByteString rest c in
      if 0 <=? i then i + 1
      else if Ascii.eqb a c then 0 else -1
  end.

(** The slice expression [s[lo:hi]], for [0 <= lo <= hi <= len(s)]. *)
Definition slice (s : string) (lo hi : Z) : string :=
  String.substring (Z.to_nat lo) (Z.to_nat (hi - lo)) s.

Definition len (s : string) : Z := Z.of_nat (String.length s).

(** [(&AddrError{Err: why, Addr: addr}).Error()] *)
Definition AddrError (why addr : string) : error :=
  {| Error := if String.eqb addr "" then why
              else "address " +:+ addr +:+ ": " +:+ why |}.

Definition addrErr (addr why : string) : string * string * option error :=
  ("", "", Some (AddrError why addr)).

Definition missingPort : string := "missing port in address".
Definition tooManyColons : string := "too many colons in address".

(** Modelled from the spec: the standard host:port parsing that
    [SplitHostPort] of this package delegates to is the standard
    library's [net.SplitHostPort], which lives outside the repository; it
    splits at the last colon, accepts a bracketed host, and rejects any
    further colon or bracket. *)
Definition SplitHostPort (hostport : string) : string * string * option error :=
  let i := LastIndexByteString hostport ":" in
  if i <? 0 then addrErr hostport missingPort
  else
    let check (host : string) (j k : Z) :=
      if 0 <=? IndexByteString (slice hostport j (len hostport)) "["
      then addrErr hostport "unexpected '[' in address"
      else if 0 <=? IndexByteString (slice hostport k (len hostport)) "]"
      then addrErr hostport "unexpected ']' in address"
      else (host, slice hostport (i + 1) (len hostport), None) in
    if bool_decide (String.get 0 hostport = Some "["%char) then
      let end_ := IndexByteString hostport "]" in
      if end_ <? 0 then addrErr hostport "missing ']' in address"
      else if end_ + 1 =? len hostport then addrErr hostport missingPort
      else if end_ + 1 =? i then check (slice hostport 1 end_) 1 (end_ + 1)
      else if bool_decide (String.get (Z.to_nat (end_ + 1)) hostport = Some ":"%char)
      then addrErr hostport tooManyColons
      else addrErr hostport missingPort
    else
      let host := slice hostport 0 i in
      if 0 <=? IndexByteString host ":" then addrErr hostport tooManyColons
      else check host 0 0.

(** Modelled from the spec: the standard host:port join is the standard
    library's [net.JoinHostPort]; a host that contains a colon is taken
    for an IPv6 literal and bracketed. *)
Definition JoinHostPort (host port : string) : string :=
  if 0 <=? IndexByteString host ":" then "[" +:+ host +:+ "]:" +:+ port
  else host +:+ ":" +:+ port.

End net.

(** ** Package util *)

Module util.
Import Go io.

(** Common allocation units *)
Definition KiB : Z := 1024.
Definition MiB : Z := mul64 1024 KiB.
Definition GiB : Z := mul64 1024 MiB.
Definition TiB : Z := mul64 1024 GiB.

(** [return (volumeSizeBytes + allocationUnitBytes - 1) / allocationUnitBytes] *)
Definition RoundUpSize (volumeSizeBytes allocationUnitBytes : Z) : result Z :=
  div64 (sub64 (add64 volumeSizeBytes allocationUnitBytes) 1)
        allocationUnitBytes.

Definition RoundUpToGiB (sizeBytes : Z) : result Z :=
  RoundUpSize sizeBytes GiB.

(** The loop returns [true] at the first element equal to [mode]. *)
Fixpoint AccessModesContains (modes : list v1.PersistentVolumeAccessMode)
         (mode : v1.PersistentVolumeAccessMode) : bool :=
  match modes with
  | [] => false
  | m :: rest =>
      if String.eqb m mode then true else AccessModesContains rest mode
  end.

(** The loop returns [false] at the first requested mode that
    [indexedModes] lacks. *)
Fixpoint AccessModesContainedInAll
         (indexedModes requestedModes : list v1.PersistentVolumeAccessMode) : bool :=
  match requestedModes with
  | [] => true
  | mode :: rest =>
      if negb (AccessModesContains indexedModes mode) then false
      else AccessModesContainedInAll indexedModes rest
  end.

Definition GetPersistentVolumeClass (volume : ptr v1.PersistentVolume) :
  result string :=
  vol ← deref volume;
  (* Use beta annotation first *)
  let '(class, found) :=
    map_index (v1.pv_Annotations vol) v1.BetaStorageClassAnnotation in
  if found then mret class
  else mret (v1.pv_StorageClassName (v1.pv_Spec vol)).

Definition GetPersistentVolumeClaimClass (claim : ptr v1.PersistentVolumeClaim) :
  result string :=
  c ← deref claim;
  (* Use beta annotation first *)
  let '(class, found) :=
    map_index (v1.pvc_Annotations c) v1.BetaStorageClassAnnotation in
  if found then mret class
  else if negb (is_nil (v1.pvc_StorageClassName (v1.pvc_Spec c)))
  then deref (v1.pvc_StorageClassName (v1.pvc_Spec c))
  else mret "".

(** [pvc.Spec.VolumeMode != nil && *pvc.Spec.VolumeMode == v1.PersistentVolumeBlock];
    the right operand is evaluated only when the left one holds. *)
Definition CheckPersistentVolumeClaimModeBlock (pvc : ptr v1.PersistentVolumeClaim) :
  result bool :=
  c ← deref pvc;
  if negb (is_nil (v1.pvc_VolumeMode (v1.pvc_Spec c)))
  then mode ← deref (v1.pvc_VolumeMode (v1.pvc_Spec c));
       mret (String.eqb mode v1.PersistentVolumeBlock)
  else mret false.

(** The part of [FindDNSIP] after [dnssvc] has been assigned. *)
Definition FindDNSIP_found (dnssvc : ptr v1.Service) : prog string :=
  svc ← lift (deref dnssvc);
  if (String.length (v1.ClusterIP (v1.svc_Spec svc)) =? 0)%nat
  then log (Err None ("DNS service ClusterIP bad" +:+ String "010" "") []);;
       mret ""
  else mret (v1.ClusterIP (v1.svc_Spec svc)).

Definition FindDNSIP : prog string :=
  '(coredns, err) ← services_get metav1.NamespaceSystem "coredns";
  match err with
  | Some e =>
      log (Info 0 "Error getting coredns service. Falling back to kube-dns"
                [("err", LogError e)]);;
      '(kubedns, err) ← services_get metav1.NamespaceSystem "kube-dns";
      match err with
      | Some e' =>
          log (Err (Some e') "Error getting kube-dns service" []);;
          mret ""
      | None => FindDNSIP_found kubedns
      end
  | None => FindDNSIP_found coredns
  end.

(** The trace of the error entry that [FindDNSIP] logs for a service
    without a cluster address. *)
Definition ClusterIP_bad : event :=
  EvLog (Err None ("DNS service ClusterIP bad" +:+ String "010" "") []).

Section HostPort.
(** The two functions of package net that the helpers delegate to. *)
Variable net_SplitHostPort : string -> string * string * option error.
Variable net_JoinHostPort : string -> string -> string.

Definition SplitHostPort (hostport : string) : string * string :=
  let '(host, port, err) := net_SplitHostPort hostport in
  match err with
  | Some _ => (hostport, "")
  | None => (host, port)
  end.

Definition JoinHostPort (host port : string) : string :=
  if negb (String.eqb port "") then net_JoinHostPort host port
  else host.

(** The functions of the DNS library and of package net and fmt that
    [LookupHost] passes values through. *)
Variable dns_Fqdn : string -> string.
Variable IP_String : dns.IP -> string.
Variable Sprintf_v : dns.RR -> string.

(** The loop over [in.Answer]; [iplist] is the slice built so far. *)
Fixpoint LookupHost_answers (answer : list dns.RR) (iplist : list string) :
  prog (list string) :=
  match answer with
  | [] => mret iplist
  | a :: rest =>
      log (Info 4 "LookupHost answer" [("answer", LogString (Sprintf_v a))]);;
      let '(t, ok) := dns.assert_A a in
      if ok then LookupHost_answers rest (iplist ++ [IP_String (dns.A_A t)])
      else LookupHost_answers rest iplist
  end.

(** The result pair is [(iplist, err)]; the nil slice is the empty list. *)
Definition LookupHost (hostname serverip : string) :
  prog (list string * option error) :=
  log (Info 4 "LookupHost"
            [("hostname", LogString hostname); ("serverIP", LogString serverip)]);;
  id ← dns_id;
  let m := dns.SetQuestion dns.new_Msg (dns_Fqdn hostname) dns.TypeA id in
  '(in_, err) ← dns_exchange m (JoinHostPort serverip "53");
  match err with
  | Some e =>
      log (Err (Some e) "DNS lookup failed" [("hostname", LogString hostname)]);;
      mret ([], Some e)
  | None =>
      msg ← lift (deref in_);
      iplist ← LookupHost_answers (dns.Answer msg) [];
      mret (iplist, None)
  end.

End HostPort.

End util.

(** ** The address list of an answer section, as the specification words it *)

Module spec.

(** The addresses of exactly the answer records of type A, in the order of
    the answer section; a record of any other type contributes nothing. *)
Definition A_record_addresses (IP_String : dns.IP -> string)
           (answer : list dns.RR) : list string :=
  omap (fun a => match a with
                 | dns.RR_A t => Some (IP_String (dns.A_A t))
                 | _ => None
                 end) answer.

(** The verbose entry logged for one answer record. *)
Definition answer_logged (Sprintf_v : dns.RR -> string) (a : dns.RR) : io.event :=
  io.EvLog (io.Info 4 "LookupHost answer" [("answer", io.LogString (Sprintf_v a))]).

End spec.

(** ** Views of a run's trace *)

Module trace.
Import io.

(** The outward calls of a trace, log entries left out. *)
Definition calls (tr : list event) : list event :=
  List.filter (fun e => match e with EvLog _ => false | _ => true end) tr.

(** The number of address records in an answer section. *)
Definition count_A (answer : list dns.RR) : nat :=
  length (List.filter (fun a => snd (dns.assert_A a)) answer).

End trace.

(** ** Sample descriptors and environments *)

Module sample.
Import Go io.

(** A volume and a claim that carry the annotation "fast" next to the
    structured class "slow". *)
Definition fast_slow_volume : v1.PersistentVolume :=
  {| v1.pv_Annotations := {[ v1.BetaStorageClassAnnotation := "fast" ]};
     v1.pv_Spec := {| v1.pv_StorageClassName := "slow" |} |}.

Definition fast_slow_claim : v1.PersistentVolumeClaim :=
  {| v1.pvc_Annotations := {[ v1.BetaStorageClassAnnotation := "fast" ]};
     v1.pvc_Spec := {| v1.pvc_StorageClassName := Some "slow";
                       v1.pvc_VolumeMode := None |} |}.

(** A claim with no annotation and both optional fields unset. *)
Definition unset_claim : v1.PersistentVolumeClaim :=
  {| v1.pvc_Annotations := ∅;
     v1.pvc_Spec := {| v1.pvc_StorageClassName := None;
                       v1.pvc_VolumeMode := None |} |}.

Definition block_claim : v1.PersistentVolumeClaim :=
  {| v1.pvc_Annotations := ∅;
     v1.pvc_Spec := {| v1.pvc_StorageClassName := None;
                       v1.pvc_VolumeMode := Some v1.PersistentVolumeBlock |} |}.

Definition not_found : error := {| Error := "services not found" |}.

Definition kube_dns : v1.Service :=
  {| v1.svc_Spec := {| v1.ClusterIP := "10.0.0.10" |} |}.

Definition header (name : string) (rrtype : Z) : dns.RR_Header :=
  {| dns.hdr_Name := name; dns.Rrtype := rrtype;
     dns.Class := dns.ClassINET; dns.Ttl := 30 |}.

(** An answer section with an alias followed by two addresses. *)
Definition answers : list dns.RR :=
  [ dns.RR_CNAME (header "db.example." dns.TypeCNAME) "db-0.example.";
    dns.RR_A {| dns.A_Hdr := header "db-0.example." dns.TypeA;
                dns.A_A := [Byte.x0a; Byte.x01; Byte.x02; Byte.x03] |};
    dns.RR_A {| dns.A_Hdr := header "db-0.example." dns.TypeA;
                dns.A_A := [Byte.x0a; Byte.x01; Byte.x02; Byte.x04] |} ].

(** A cluster that only runs the "kube-dns" service; the state counts the
    calls answered so far. The DNS server answers every query with
    [answers]. *)
Definition legacy_cluster : World nat :=
  {| Services_Get := fun ns name n =>
       if String.eqb ns "kube-system" && String.eqb name "kube-dns"
       then (Some kube_dns, None, S n)
       else (None, Some not_found, S n);
     Id_ := fun n => (4660, n);
     Exchange := fun m addr n =>
       (Some {| dns.Id := dns.Id m; dns.RecursionDesired := true;
                dns.Question_ := dns.Question_ m; dns.Answer := answers |},
        None, S n) |}.

(** A network on which no service lookup and no DNS exchange succeeds. *)
Definition unreachable : World nat :=
  {| Services_Get := fun ns name n => (None, Some not_found, S n);
     Id_ := fun n => (4660, n);
     Exchange := fun m addr n =>
       (None, Some {| Error := "i/o timeout" |}, S n) |}.

(** Dotted notation of a four-byte address. *)
Definition IP_String (ip : dns.IP) : string :=
  match ip with
  | [a; b; c; d] =>
      pretty (Byte.to_N a) +:+ "." +:+ pretty (Byte.to_N b) +:+ "." +:+
      pretty (Byte.to_N c) +:+ "." +:+ pretty (Byte.to_N d)
  | [] => "<nil>"
  | _ => "?"
  end.

Definition Fqdn (s : string) : string := s +:+ ".".

Definition Sprintf_v (a : dns.RR) : string :=
  match a with
  | dns.RR_A t => dns.hdr_Name (dns.A_Hdr t) +:+ " A " +:+ IP_String (dns.A_A t)
  | dns.RR_CNAME hdr target => dns.hdr_Name hdr +:+ " CNAME " +:+ target
  | dns.RR_Other hdr _ => dns.hdr_Name hdr
  end.

End sample.

(** ** Properties *)

Section Int64Facts.
Import Go.

Lemma wrap64_id z : is_int64 z -> wrap64 z = z.
Proof.
  unfold is_int64, min_int64, max_int64, wrap64. intros Hz.
  rewrite Z.mod_small; lia.
Qed.

Lemma wrap64_is_int64 z : is_int64 (wrap64 z).
Proof.
  unfold is_int64, min_int64, max_int64, wrap64.
  pose proof (Z.mod_pos_bound (z + 2 ^ 63) (2 ^ 64)). lia.
Qed.

Lemma wrap64_above z :
  max_int64 < z <= max_int64 + 2 ^ 64 -> wrap64 z = z - 2 ^ 64.
Proof.
  unfold max_int64, wrap64. intros Hz.
  replace (z + 2 ^ 63) with ((z - 2 ^ 64 + 2 ^ 63) + 1 * 2 ^ 64) by ring.
  rewrite Z.mod_add by lia. rewrite Z.mod_small; lia.
Qed.

(** Wrapping an intermediate result does not change the wrapped total. *)
Lemma wrap64_add_l a b : wrap64 (wrap64 a + b) = wrap64 (a + b).
Proof.
  unfold wrap64. f_equal.
  replace ((a + 2 ^ 63) mod 2 ^ 64 - 2 ^ 63 + b + 2 ^ 63)
    with ((a + 2 ^ 63) mod 2 ^ 64 + b) by ring.
  rewrite Zplus_mod_idemp_l. f_equal. ring.
Qed.

Lemma sub64_add64 v u : sub64 (add64 v u) 1 = wrap64 (v + u - 1).
Proof. unfold sub64, add64. apply (wrap64_add_l (v + u) (- 1)). Qed.

End Int64Facts.

(** *** Allocation rounding *)

Section RoundUp.
Import Go util.

(** The sizes listed with the rounding contract, and the zero unit. *)
Lemma RoundUpSize_examples :
  RoundUpSize (1500 * MiB) GiB = Ok 2 /\
  RoundUpSize 0 GiB = Ok 0 /\
  RoundUpSize GiB GiB = Ok 1 /\
  RoundUpToGiB (1500 * MiB) = Ok 2 /\
  RoundUpSize (1500 * MiB) 0 = Panic DivideByZero.
Proof. repeat split; vm_compute; reflexivity. Qed.

(** When the sum stays representable the code computes the floor of
    [(v + u - 1) / u] on mathematical integers. *)
Lemma RoundUpSize_exact v u :
  is_int64 v -> is_int64 u -> 0 <= v -> 0 < u -> v + u - 1 <= max_int64 ->
  RoundUpSize v u = Ok ((v + u - 1) / u).
Proof.
  intros Hv Hu Hv0 Hu0 Hsum.
  unfold is_int64, min_int64, max_int64 in *.
  assert (Hq : 0 <= (v + u - 1) / u <= v + u - 1).
  { split; [apply Z.div_pos; lia |].
    apply Z.div_le_upper_bound; [lia | nia]. }
  unfold RoundUpSize, div64. rewrite sub64_add64.
  destruct (Z.eqb_spec u 0) as [-> | _]; [lia |].
  rewrite (wrap64_id (v + u - 1)) by (unfold is_int64, min_int64, max_int64; lia).
  rewrite Z.quot_div_nonneg by lia.
  rewrite wrap64_id by (unfold is_int64, min_int64, max_int64; lia).
  reflexivity.
Qed.

(** Past the largest int64 the two-step sum has wrapped exactly once. *)
Lemma RoundUpSize_sum_wraps v u :
  is_int64 v -> is_int64 u -> 0 < u -> v > 2 ^ 63 - u ->
  sub64 (add64 v u) 1 = v + u - 1 - 2 ^ 64.
Proof.
  intros Hv Hu Hu0 Hover. rewrite sub64_add64.
  unfold is_int64, min_int64, max_int64 in *.
  apply wrap64_above. unfold max_int64. lia.
Qed.

(** Past the largest int64 the value returned is the truncated quotient of
    the wrapped sum, which is never positive. *)
Lemma quot_wrapped_bounds s u :
  - 2 ^ 63 <= s < 0 -> 0 < u -> s <= Z.quot s u <= 0.
Proof.
  intros Hs Hu.
  rewrite <- (Z.opp_involutive s), Z.quot_opp_l by lia.
  rewrite Z.quot_div_nonneg by lia.
  assert (0 <= - s / u <= - s).
  { split; [apply Z.div_pos; lia |].
    apply Z.div_le_upper_bound; [lia | nia]. }
  lia.
Qed.

Lemma RoundUpSize_wrapped v u :
  is_int64 v -> is_int64 u -> 0 < u -> v > 2 ^ 63 - u ->
  RoundUpSize v u = Ok (Z.quot (v + u - 1 - 2 ^ 64) u).
Proof.
  intros Hv Hu Hu0 Hover.
  unfold RoundUpSize, div64. rewrite (RoundUpSize_sum_wraps v u Hv Hu Hu0 Hover).
  destruct (Z.eqb_spec u 0) as [-> | _]; [lia |].
  f_equal. apply wrap64_id.
  unfold is_int64, min_int64, max_int64 in *.
  pose proof (quot_wrapped_bounds (v + u - 1 - 2 ^ 64) u). lia.
Qed.

(** On every such input the value returned is too small for the volume:
    the bound on the sum in the ceiling property below cannot be relaxed. *)
Lemma RoundUpSize_wrapped_too_small v u r :
  is_int64 v -> is_int64 u -> 0 < u -> v > 2 ^ 63 - u ->
  RoundUpSize v u = Ok r -> r * u < v.
Proof.
  intros Hv Hu Hu0 Hover. rewrite RoundUpSize_wrapped by assumption.
  intros [= <-].
  unfold is_int64, min_int64, max_int64 in *.
  pose proof (quot_wrapped_bounds (v + u - 1 - 2 ^ 64) u). nia.
Qed.

(** C1: the code breaks the rounding contract. At the representable inputs
    [volumeSizeBytes = 2^63 - 1] and [allocationUnitBytes = 2] the sum
    overflows and the value returned is [-2^62]; [-2^62 * 2] is below the
    volume size, so the result is not a count of units that holds the
    volume (2^62 units would). *)
Lemma RoundUpSize_ceiling_fails_near_max :
  is_int64 (2 ^ 63 - 1) /\ is_int64 2 /\ 0 <= 2 ^ 63 - 1 /\ 0 < 2 /\
  RoundUpSize (2 ^ 63 - 1) 2 = Ok (- 2 ^ 62) /\
  ~ (- 2 ^ 62 * 2 >= 2 ^ 63 - 1).
Proof.
  unfold is_int64, min_int64, max_int64.
  split; [lia |]. split; [lia |]. split; [lia |]. split; [lia |].
  split; [vm_compute; reflexivity | lia].
Qed.

(** X20: for every non-negative [volumeSizeBytes] and positive
    [allocationUnitBytes] whose sum [volumeSizeBytes + allocationUnitBytes - 1]
    does not exceed the largest int64, [RoundUpSize] returns the smallest
    integer [n] with [n * allocationUnitBytes >= volumeSizeBytes]; that
    result [r] also satisfies [(r - 1) * allocationUnitBytes < volumeSizeBytes]
    when [volumeSizeBytes > 0]. *)
Theorem RoundUpSize_ceiling v u :
  is_int64 v -> is_int64 u -> 0 <= v -> 0 < u -> v + u - 1 <= max_int64 ->
  exists r,
    RoundUpSize v u = Ok r /\
    r * u >= v /\
    (forall n, n * u >= v -> r <= n) /\
    (0 < v -> (r - 1) * u < v).
Proof.
  intros Hv Hu Hv0 Hu0 Hsum.
  exists ((v + u - 1) / u). split; [by apply RoundUpSize_exact |].
  pose proof (Z.div_mod (v + u - 1) u ltac:(lia)) as Hdm.
  pose proof (Z.mod_pos_bound (v + u - 1) u Hu0) as Hm.
  set (r := (v + u - 1) / u) in *.
  repeat split; [nia | | nia].
  intros n Hn. destruct (Z_lt_le_dec n r) as [Hlt | Hle]; [nia | lia].
Qed.

Lemma RoundUpSize_ceiling_witness :
  exists r,
    RoundUpSize (1500 * MiB) GiB = Ok r /\
    r * GiB >= 1500 * MiB /\
    (forall n, n * GiB >= 1500 * MiB -> r <= n) /\
    (0 < 1500 * MiB -> (r - 1) * GiB < 1500 * MiB).
Proof.
  apply (RoundUpSize_ceiling (1500 * MiB) GiB);
    unfold is_int64, min_int64, max_int64; vm_compute; intuition discriminate.
Defined.

(** C10: [RoundUpSize] has no overflow guard. For every int64
    [volumeSizeBytes] and positive int64 [allocationUnitBytes] with
    [volumeSizeBytes > 2^63 - allocationUnitBytes], the intermediate sum
    [volumeSizeBytes + allocationUnitBytes - 1] wraps modulo [2^64] to a
    negative number, and the value returned is that wrapped sum divided,
    with truncation, by [allocationUnitBytes]; the returned count is
    negative at the in-range inputs [2^63 - 1] and [2]. *)
Theorem RoundUpSize_wraps :
  (forall v u,
      is_int64 v -> is_int64 u -> 0 < u -> v > 2 ^ 63 - u ->
      sub64 (add64 v u) 1 = v + u - 1 - 2 ^ 64 /\
      v + u - 1 - 2 ^ 64 < 0 /\
      RoundUpSize v u = Ok (Z.quot (v + u - 1 - 2 ^ 64) u)) /\
  (exists v u r,
      is_int64 v /\ is_int64 u /\ 0 <= v /\ 0 < u /\
      RoundUpSize v u = Ok r /\ r < 0).
Proof.
  split.
  - intros v u Hv Hu Hu0 Hover.
    split; [by apply RoundUpSize_sum_wraps |].
    split; [| by apply RoundUpSize_wrapped].
    unfold is_int64, min_int64, max_int64 in Hv, Hu. lia.
  - exists (2 ^ 63 - 1), 2, (- 2 ^ 62).
    unfold is_int64, min_int64, max_int64.
    split; [lia |]. split; [lia |]. split; [lia |]. split; [lia |].
    split; [vm_compute; reflexivity | lia].
Qed.

Lemma RoundUpSize_wraps_witness :
  sub64 (add64 (2 ^ 63 - 1) 2) 1 = (2 ^ 63 - 1) + 2 - 1 - 2 ^ 64 /\
  (2 ^ 63 - 1) + 2 - 1 - 2 ^ 64 < 0 /\
  RoundUpSize (2 ^ 63 - 1) 2 = Ok (Z.quot ((2 ^ 63 - 1) + 2 - 1 - 2 ^ 64) 2).
Proof.
  apply (proj1 RoundUpSize_wraps (2 ^ 63 - 1) 2);
    unfold is_int64, min_int64, max_int64; vm_compute; intuition discriminate.
Defined.

End RoundUp.

(** *** Access-mode membership *)

Section AccessModes.
Import util.
Implicit Types (modes indexedModes requestedModes : list v1.PersistentVolumeAccessMode).
Implicit Types (mode : v1.PersistentVolumeAccessMode).

Lemma AccessModesContains_elem_of modes mode :
  AccessModesContains modes mode = true <-> mode ∈ modes.
Proof.
  induction modes as [| m rest IH]; simpl.
  - split; [discriminate | by intros ?%elem_of_nil].
  - rewrite elem_of_cons. destruct (String.eqb_spec m mode) as [-> | Hne].
    + tauto.
    + rewrite IH. split; [tauto |]. intros [-> | ?]; [done | assumption].
Qed.

Lemma AccessModesContainedInAll_subseteq indexedModes requestedModes :
  AccessModesContainedInAll indexedModes requestedModes = true <->
  (forall mode, mode ∈ requestedModes -> mode ∈ indexedModes).
Proof.
  induction requestedModes as [| m rest IH]; simpl.
  - split; [| done]. intros _ mode Hin. by apply elem_of_nil in Hin.
  - destruct (AccessModesContains indexedModes m) eqn:Hm; simpl.
    + apply AccessModesContains_elem_of in Hm. rewrite IH. split.
      * intros Hall mode [-> | Hin]%elem_of_cons; auto.
      * intros Hall mode Hin. apply Hall. by right.
    + split; [discriminate |]. intros Hall.
      assert (Hin : m ∈ indexedModes) by (apply Hall; by left).
      apply AccessModesContains_elem_of in Hin. congruence.
Qed.

(** Two calls whose arguments hold the same modes, in whatever order and
    multiplicity, agree. *)
Lemma AccessModesContainedInAll_same_elements
      indexedModes indexedModes' requestedModes requestedModes' :
  (forall mode, mode ∈ indexedModes <-> mode ∈ indexedModes') ->
  (forall mode, mode ∈ requestedModes <-> mode ∈ requestedModes') ->
  AccessModesContainedInAll indexedModes requestedModes =
  AccessModesContainedInAll indexedModes' requestedModes'.
Proof.
  intros Hi Hr.
  destruct (AccessModesContainedInAll indexedModes requestedModes) eqn:H1;
    destruct (AccessModesContainedInAll indexedModes' requestedModes') eqn:H2;
    try reflexivity.
  - rewrite AccessModesContainedInAll_subseteq in H1.
    assert (AccessModesContainedInAll indexedModes' requestedModes' = true)
      as Hc; [| congruence].
    apply AccessModesContainedInAll_subseteq.
    intros mode Hin. apply Hi, H1, Hr, Hin.
  - rewrite AccessModesContainedInAll_subseteq in H2.
    assert (AccessModesContainedInAll indexedModes requestedModes = true)
      as Hc; [| congruence].
    apply AccessModesContainedInAll_subseteq.
    intros mode Hin. apply Hi, H2, Hr, Hin.
Qed.

(** C4: [AccessModesContainedInAll indexedModes requestedModes] is true
    exactly when every element of [requestedModes] occurs in
    [indexedModes], occurrence being what [AccessModesContains] decides by
    equality; repeating a requested mode does not change the result, and
    reordering either argument does not change it. *)
Theorem AccessModesContainedInAll_iff :
  (forall modes mode,
      AccessModesContains modes mode = true <-> mode ∈ modes) /\
  (forall indexedModes requestedModes,
      AccessModesContainedInAll indexedModes requestedModes = true <->
      (forall mode, mode ∈ requestedModes ->
                    AccessModesContains indexedModes mode = true)) /\
  (forall indexedModes requestedModes mode,
      mode ∈ requestedModes ->
      AccessModesContainedInAll indexedModes (mode :: requestedModes) =
      AccessModesContainedInAll indexedModes requestedModes) /\
  (forall indexedModes indexedModes' requestedModes requestedModes',
      indexedModes ≡ₚ indexedModes' ->
      requestedModes ≡ₚ requestedModes' ->
      AccessModesContainedInAll indexedModes requestedModes =
      AccessModesContainedInAll indexedModes' requestedModes').
Proof.
  split; [exact AccessModesContains_elem_of |].
  split; [| split].
  - intros indexedModes requestedModes.
    rewrite AccessModesContainedInAll_subseteq.
    by setoid_rewrite AccessModesContains_elem_of.
  - intros indexedModes requestedModes mode Hin.
    apply AccessModesContainedInAll_same_elements; [done |].
    intros m. rewrite elem_of_cons. split; [| tauto].
    intros [-> | ?]; assumption.
  - intros indexedModes indexedModes' requestedModes requestedModes' Hi Hr.
    apply AccessModesContainedInAll_same_elements; intros m.
    + by rewrite Hi.
    + by rewrite Hr.
Qed.

Lemma AccessModesContainedInAll_iff_witness :
  AccessModesContainedInAll
    [v1.ReadWriteOnce; v1.ReadOnlyMany] [v1.ReadOnlyMany; v1.ReadOnlyMany] =
  AccessModesContainedInAll [v1.ReadWriteOnce; v1.ReadOnlyMany] [v1.ReadOnlyMany] /\
  AccessModesContainedInAll [v1.ReadWriteOnce; v1.ReadOnlyMany] [v1.ReadOnlyMany] = true /\
  AccessModesContainedInAll [v1.ReadWriteOnce] [v1.ReadWriteOnce; v1.ReadOnlyMany] = false.
Proof.
  split.
  - apply (proj1 (proj2 (proj2 AccessModesContainedInAll_iff))).
    constructor.
  - split; reflexivity.
Defined.

End AccessModes.

(** *** Storage-class and volume-mode accessors *)

Section Accessors.
Import Go util.

Lemma map_index_Some (m : gmap string string) k v :
  m !! k = Some v -> map_index m k = (v, true).
Proof. intros H. unfold map_index. by rewrite H. Qed.

Lemma map_index_None (m : gmap string string) k :
  m !! k = None -> map_index m k = ("", false).
Proof. intros H. unfold map_index. by rewrite H. Qed.

(** The accessors read through the descriptor pointer they are given. *)
Lemma nil_descriptor_panics :
  GetPersistentVolumeClass None = Panic NilDereference /\
  GetPersistentVolumeClaimClass None = Panic NilDereference /\
  CheckPersistentVolumeClaimModeBlock None = Panic NilDereference.
Proof. repeat split. Qed.

Lemma CheckPersistentVolumeClaimModeBlock_examples :
  CheckPersistentVolumeClaimModeBlock (Some sample.block_claim) = Ok true /\
  CheckPersistentVolumeClaimModeBlock (Some sample.unset_claim) = Ok false /\
  CheckPersistentVolumeClaimModeBlock (Some sample.fast_slow_claim) = Ok false.
Proof. repeat split. Qed.

(** C5: for every volume and every claim the two accessors follow one
    precedence rule. When the beta storage-class annotation is present in
    the annotation map its value is returned, whatever the structured
    field holds; only when it is absent is the structured
    [StorageClassName] returned: the field itself for a volume, the
    pointed-to string (or the empty string for nil) for a claim. *)
Theorem GetPersistentVolumeClass_precedence
        (volume : v1.PersistentVolume) (claim : v1.PersistentVolumeClaim) :
  (forall class,
      v1.pv_Annotations volume !! v1.BetaStorageClassAnnotation = Some class ->
      GetPersistentVolumeClass (Some volume) = Ok class) /\
  (v1.pv_Annotations volume !! v1.BetaStorageClassAnnotation = None ->
   GetPersistentVolumeClass (Some volume) =
   Ok (v1.pv_StorageClassName (v1.pv_Spec volume))) /\
  (forall class,
      v1.pvc_Annotations claim !! v1.BetaStorageClassAnnotation = Some class ->
      GetPersistentVolumeClaimClass (Some claim) = Ok class) /\
  (v1.pvc_Annotations claim !! v1.BetaStorageClassAnnotation = None ->
   GetPersistentVolumeClaimClass (Some claim) =
   Ok (default "" (v1.pvc_StorageClassName (v1.pvc_Spec claim)))).
Proof.
  unfold GetPersistentVolumeClass, GetPersistentVolumeClaimClass; simpl.
  repeat apply conj.
  - intros class H. by rewrite (map_index_Some _ _ _ H).
  - intros H. by rewrite (map_index_None _ _ H).
  - intros class H. by rewrite (map_index_Some _ _ _ H).
  - intros H. rewrite (map_index_None _ _ H).
    by destruct (v1.pvc_StorageClassName (v1.pvc_Spec claim)).
Qed.

Lemma GetPersistentVolumeClass_precedence_witness :
  GetPersistentVolumeClass (Some sample.fast_slow_volume) = Ok "fast" /\
  GetPersistentVolumeClaimClass (Some sample.fast_slow_claim) = Ok "fast".
Proof.
  pose proof (GetPersistentVolumeClass_precedence sample.fast_slow_volume sample.fast_slow_claim)
    as (Hv & _ & Hc & _).
  split; [apply Hv | apply Hc]; apply lookup_singleton_eq.
Defined.

(** C6: for every claim with no beta storage-class annotation and a nil
    [StorageClassName] pointer, [GetPersistentVolumeClaimClass] returns
    the empty string; it does not panic, the dereference not being
    evaluated for a nil pointer. *)
Theorem GetPersistentVolumeClaimClass_nil (claim : v1.PersistentVolumeClaim) :
  v1.pvc_Annotations claim !! v1.BetaStorageClassAnnotation = None ->
  v1.pvc_StorageClassName (v1.pvc_Spec claim) = None ->
  GetPersistentVolumeClaimClass (Some claim) = Ok "" /\
  GetPersistentVolumeClaimClass (Some claim) <> Panic NilDereference.
Proof.
  intros Hann Hnil.
  assert (H : GetPersistentVolumeClaimClass (Some claim) = Ok "").
  { unfold GetPersistentVolumeClaimClass; simpl.
    rewrite (map_index_None _ _ Hann), Hnil. reflexivity. }
  split; [exact H | rewrite H; discriminate].
Qed.

Lemma GetPersistentVolumeClaimClass_nil_witness :
  GetPersistentVolumeClaimClass (Some sample.unset_claim) = Ok "" /\
  GetPersistentVolumeClaimClass (Some sample.unset_claim) <> Panic NilDereference.
Proof.
  apply (GetPersistentVolumeClaimClass_nil sample.unset_claim).
  - apply lookup_empty.
  - reflexivity.
Defined.

(** C7: for every claim, [CheckPersistentVolumeClaimModeBlock] returns
    true exactly when the [VolumeMode] pointer is not nil and points to
    the Block mode; a nil [VolumeMode] yields false. *)
Theorem CheckPersistentVolumeClaimModeBlock_iff (claim : v1.PersistentVolumeClaim) :
  exists b,
    CheckPersistentVolumeClaimModeBlock (Some claim) = Ok b /\
    (b = true <->
     v1.pvc_VolumeMode (v1.pvc_Spec claim) = Some v1.PersistentVolumeBlock) /\
    (v1.pvc_VolumeMode (v1.pvc_Spec claim) = None -> b = false).
Proof.
  unfold CheckPersistentVolumeClaimModeBlock; simpl.
  destruct (v1.pvc_VolumeMode (v1.pvc_Spec claim)) as [mode |]; simpl.
  - exists (String.eqb mode v1.PersistentVolumeBlock).
    split; [reflexivity |]. split; [| discriminate].
    rewrite String.eqb_eq. split; [by intros -> | by intros [= ->]].
  - exists false. repeat split; discriminate.
Qed.

End Accessors.

(** *** Host and port helpers *)

Section NetFacts.
Import Go net.

Lemma has_byte_app s t c : has_byte (s +:+ t) c = has_byte s c || has_byte t c.
Proof.
  induction s as [| a s IH]; simpl; [reflexivity |].
  rewrite IH. by rewrite orb_assoc.
Qed.

Lemma IndexByteString_absent s c : has_byte s c = false -> IndexByteString s c = -1.
Proof.
  induction s as [| a s IH]; simpl; [reflexivity |].
  intros [Ha Hs]%orb_false_iff. rewrite Ha, (IH Hs). reflexivity.
Qed.

Lemma IndexByteString_present s c : has_byte s c = true -> 0 <= IndexByteString s c.
Proof.
  induction s as [| a s IH]; simpl; [discriminate |].
  destruct (Ascii.eqb a c); simpl; [lia |].
  intros H. specialize (IH H).
  destruct (Z.ltb_spec (IndexByteString s c) 0); lia.
Qed.

Lemma LastIndexByteString_absent s c :
  has_byte s c = false -> LastIndexByteString s c = -1.
Proof.
  induction s as [| a s IH]; simpl; [reflexivity |].
  intros [Ha Hs]%orb_false_iff. rewrite Ha, (IH Hs). reflexivity.
Qed.

Lemma LastIndexByteString_app s t c :
  has_byte t c = false ->
  LastIndexByteString (s +:+ String c t) c = len s.
Proof.
  intros Ht. unfold len. induction s as [| a s IH]; simpl.
  - rewrite (LastIndexByteString_absent _ _ Ht). simpl.
    by rewrite Ascii.eqb_refl.
  - rewrite IH. destruct (Z.leb_spec 0 (Z.of_nat (String.length s))); lia.
Qed.

Lemma substring_full t : String.substring 0 (String.length t) t = t.
Proof. induction t as [| b t IH]; simpl; [reflexivity | by rewrite IH]. Qed.

Lemma substring_prefix s t : String.substring 0 (String.length s) (s +:+ t) = s.
Proof.
  induction s as [| a s IH]; simpl.
  - by destruct t.
  - by rewrite IH.
Qed.

Lemma substring_suffix s t :
  String.substring (String.length s) (String.length t) (s +:+ t) = t.
Proof.
  induction s as [| a s IH]; simpl; [apply substring_full | exact IH].
Qed.

Lemma slice_all s : slice s 0 (len s) = s.
Proof.
  unfold slice, len. rewrite Z.sub_0_r, Nat2Z.id. apply substring_full.
Qed.

Lemma length_app s t :
  String.length (s +:+ t) = (String.length s + String.length t)%nat.
Proof. induction s as [| a s IH]; simpl; [reflexivity | by rewrite IH]. Qed.

Lemma slice_after_colon host port :
  slice (host +:+ String ":" port) (len host + 1)
        (len (host +:+ String ":" port)) = port.
Proof.
  unfold slice, len. rewrite length_app. cbn [String.length].
  replace (Z.to_nat (Z.of_nat (String.length host) + 1))
    with (String.length host + 1)%nat by lia.
  replace (Z.to_nat (Z.of_nat (String.length host + S (String.length port)) -
                     (Z.of_nat (String.length host) + 1)))
    with (String.length port) by lia.
  induction host as [| a host IH]; [apply substring_full | exact IH].
Qed.

(** An input without a colon has no port to split off. *)
Lemma SplitHostPort_no_colon hostport :
  has_byte hostport ":" = false ->
  net.SplitHostPort hostport = addrErr hostport missingPort.
Proof.
  intros H. unfold net.SplitHostPort.
  by rewrite (LastIndexByteString_absent _ _ H).
Qed.

(** A plain host (no colon, no bracket) followed by a colon and a port
    (no colon, no bracket) splits into the two. *)
Lemma SplitHostPort_plain host port :
  has_byte host ":" = false -> has_byte host "[" = false ->
  has_byte host "]" = false ->
  has_byte port ":" = false -> has_byte port "[" = false ->
  has_byte port "]" = false ->
  net.SplitHostPort (host +:+ ":" +:+ port) = (host, port, None).
Proof.
  intros Hhc Hhl Hhr Hpc Hpl Hpr.
  change (host +:+ ":" +:+ port) with (host +:+ String ":" port).
  assert (Hl : has_byte (host +:+ String ":" port) "[" = false)
    by (rewrite has_byte_app; simpl; by rewrite Hhl, Hpl).
  assert (Hr : has_byte (host +:+ String ":" port) "]" = false)
    by (rewrite has_byte_app; simpl; by rewrite Hhr, Hpr).
  unfold net.SplitHostPort.
  rewrite (LastIndexByteString_app host port ":" Hpc).
  assert (Hlen : (len host <? 0) = false) by (apply Z.ltb_ge; unfold len; lia).
  rewrite Hlen.
  assert (Hfirst : String.get 0 (host +:+ String ":" port) <> Some "["%char).
  { destruct host as [| a host]; simpl; [discriminate |].
    simpl in Hhl. apply orb_false_iff in Hhl as [Ha _].
    apply Ascii.eqb_neq in Ha. congruence. }
  rewrite (bool_decide_eq_false_2 _ Hfirst).
  assert (Hhost : slice (host +:+ String ":" port) 0 (len host) = host).
  { unfold slice, len. rewrite Z.sub_0_r, Nat2Z.id. apply substring_prefix. }
  rewrite Hhost, (IndexByteString_absent _ _ Hhc). simpl.
  rewrite slice_all, (IndexByteString_absent _ _ Hl), (IndexByteString_absent _ _ Hr).
  simpl. f_equal. f_equal. apply slice_after_colon.
Qed.

End NetFacts.

Section HostPortFacts.
Import Go.

(** C8: [SplitHostPort] returns a pair for every input and for every
    behaviour of the standard parser: the parsed host and port when the
    parse succeeds, the whole input with an empty port when it fails. With
    the standard parser, an input without a colon comes back whole, a plain
    host and port separated by a colon are split, "host:53" yields
    ("host", "53") and "hostonly" yields ("hostonly", ""). *)
Theorem SplitHostPort_never_fails :
  (forall net_SplitHostPort hostport host port,
      net_SplitHostPort hostport = (host, port, None) ->
      util.SplitHostPort net_SplitHostPort hostport = (host, port)) /\
  (forall net_SplitHostPort hostport host port (e : error),
      net_SplitHostPort hostport = (host, port, Some e) ->
      util.SplitHostPort net_SplitHostPort hostport = (hostport, "")) /\
  (forall hostport,
      net.has_byte hostport ":" = false ->
      util.SplitHostPort net.SplitHostPort hostport = (hostport, "")) /\
  (forall host port,
      net.has_byte host ":" = false -> net.has_byte host "[" = false ->
      net.has_byte host "]" = false ->
      net.has_byte port ":" = false -> net.has_byte port "[" = false ->
      net.has_byte port "]" = false ->
      util.SplitHostPort net.SplitHostPort (host +:+ ":" +:+ port) = (host, port)) /\
  util.SplitHostPort net.SplitHostPort "host:53" = ("host", "53") /\
  util.SplitHostPort net.SplitHostPort "hostonly" = ("hostonly", "").
Proof.
  split; [| split; [| split; [| split; [| split]]]].
  - intros f hostport host port H. unfold util.SplitHostPort. by rewrite H.
  - intros f hostport host port e H. unfold util.SplitHostPort. by rewrite H.
  - intros hostport H. unfold util.SplitHostPort.
    by rewrite (SplitHostPort_no_colon _ H).
  - intros host port; intros. unfold util.SplitHostPort.
    by rewrite SplitHostPort_plain.
  - reflexivity.
  - reflexivity.
Qed.

Lemma SplitHostPort_never_fails_witness :
  util.SplitHostPort net.SplitHostPort "[::1]:53" = ("::1", "53") /\
  util.SplitHostPort net.SplitHostPort "::1:53" = ("::1:53", "") /\
  util.SplitHostPort net.SplitHostPort "10.0.0.10" = ("10.0.0.10", "").
Proof.
  destruct SplitHostPort_never_fails as (Hok & Herr & Hnone & _).
  split; [| split].
  - apply (Hok net.SplitHostPort "[::1]:53" "::1" "53"). reflexivity.
  - apply (Herr net.SplitHostPort "::1:53" "" ""
                (net.AddrError net.tooManyColons "::1:53")).
    reflexivity.
  - apply (Hnone "10.0.0.10"). reflexivity.
Defined.

(** C9: for every host, [JoinHostPort host ""] is [host] itself, with no
    colon appended; for every non-empty port [JoinHostPort host port] is
    the standard join of the two, which brackets a host that contains a
    colon; with the standard join, [JoinHostPort "host" "53"] is
    "host:53". *)
Theorem JoinHostPort_optional_port :
  (forall net_JoinHostPort host,
      util.JoinHostPort net_JoinHostPort host "" = host) /\
  (forall net_JoinHostPort host port,
      port <> "" ->
      util.JoinHostPort net_JoinHostPort host port = net_JoinHostPort host port) /\
  (forall host port,
      port <> "" -> net.has_byte host ":" = false ->
      util.JoinHostPort net.JoinHostPort host port = host +:+ ":" +:+ port) /\
  (forall host port,
      port <> "" -> net.has_byte host ":" = true ->
      util.JoinHostPort net.JoinHostPort host port =
      "[" +:+ host +:+ "]:" +:+ port) /\
  util.JoinHostPort net.JoinHostPort "host" "53" = "host:53".
Proof.
  assert (Hjoin : forall f host port,
             port <> "" -> util.JoinHostPort f host port = f host port).
  { intros f host port Hne. unfold util.JoinHostPort.
    by destruct (String.eqb_spec port ""). }
  split; [reflexivity |]. split; [exact Hjoin |]. split; [| split].
  - intros host port Hne Hc. rewrite Hjoin by done.
    unfold net.JoinHostPort. by rewrite (IndexByteString_absent _ _ Hc).
  - intros host port Hne Hc. rewrite Hjoin by done.
    unfold net.JoinHostPort.
    rewrite (proj2 (Z.leb_le 0 _)); [done |].
    by apply IndexByteString_present.
  - reflexivity.
Qed.

Lemma JoinHostPort_optional_port_witness :
  util.JoinHostPort net.JoinHostPort "10.0.0.10" "53" = "10.0.0.10:53" /\
  util.JoinHostPort net.JoinHostPort "::1" "53" = "[::1]:53" /\
  util.JoinHostPort net.JoinHostPort "::1" "" = "::1".
Proof.
  destruct JoinHostPort_optional_port as (Hempty & _ & Hplain & Hv6 & _).
  split; [| split].
  - apply (Hplain "10.0.0.10" "53"); [discriminate | reflexivity].
  - apply (Hv6 "::1" "53"); [discriminate | reflexivity].
  - apply (Hempty net.JoinHostPort "::1").
Defined.

End HostPortFacts.

(** *** Cluster DNS discovery *)

Section FindDNS.
Import Go io util.
Context {W : Type} (world : World W).

Lemma exec_FindDNSIP_found (svc : v1.Service) (w : W) :
  exec world (FindDNSIP_found (Some svc)) w =
  (Ok (v1.ClusterIP (v1.svc_Spec svc)), w,
   if String.eqb (v1.ClusterIP (v1.svc_Spec svc)) "" then [ClusterIP_bad] else []).
Proof.
  unfold FindDNSIP_found; simpl.
  destruct (v1.ClusterIP (v1.svc_Spec svc)) as [| a ip]; reflexivity.
Qed.

(** C2: [FindDNSIP] yields a string and no error value. It asks for the
    service "coredns" of the system namespace; if that lookup returns an
    error, whatever it is, it logs it and asks for "kube-dns" in the same
    namespace; if that fails too it logs the error and returns the empty
    string. For the service found it returns the empty string (and logs)
    when [ClusterIP] is empty, and [ClusterIP] otherwise. *)
Theorem FindDNSIP_fallback (w w1 : W) (coredns : ptr v1.Service) (err : option error) :
  Services_Get world metav1.NamespaceSystem "coredns" w = (coredns, err, w1) ->
  (forall svc,
      err = None -> coredns = Some svc ->
      exec world FindDNSIP w =
      (Ok (if String.eqb (v1.ClusterIP (v1.svc_Spec svc)) "" then ""
           else v1.ClusterIP (v1.svc_Spec svc)),
       w1,
       EvGet "kube-system" "coredns" ::
       (if String.eqb (v1.ClusterIP (v1.svc_Spec svc)) "" then [ClusterIP_bad] else []))) /\
  (forall e kubedns err' w2,
      err = Some e ->
      Services_Get world metav1.NamespaceSystem "kube-dns" w1 = (kubedns, err', w2) ->
      (forall svc,
          err' = None -> kubedns = Some svc ->
          exec world FindDNSIP w =
          (Ok (if String.eqb (v1.ClusterIP (v1.svc_Spec svc)) "" then ""
               else v1.ClusterIP (v1.svc_Spec svc)),
           w2,
           EvGet "kube-system" "coredns" ::
           EvLog (Info 0 "Error getting coredns service. Falling back to kube-dns"
                       [("err", LogError e)]) ::
           EvGet "kube-system" "kube-dns" ::
           (if String.eqb (v1.ClusterIP (v1.svc_Spec svc)) "" then [ClusterIP_bad] else []))) /\
      (forall e',
          err' = Some e' ->
          exec world FindDNSIP w =
          (Ok "", w2,
           [ EvGet "kube-system" "coredns";
             EvLog (Info 0 "Error getting coredns service. Falling back to kube-dns"
                         [("err", LogError e)]);
             EvGet "kube-system" "kube-dns";
             EvLog (Err (Some e') "Error getting kube-dns service" []) ]))).
Proof.
  intros Hcore. split.
  - intros svc -> ->. unfold FindDNSIP; simpl. rewrite Hcore; simpl.
    rewrite exec_FindDNSIP_found.
    by destruct (String.eqb_spec (v1.ClusterIP (v1.svc_Spec svc)) "") as [-> |].
  - intros e kubedns err' w2 -> Hkube. split.
    + intros svc -> ->. unfold FindDNSIP; simpl. rewrite Hcore; simpl.
      rewrite Hkube; simpl. rewrite exec_FindDNSIP_found.
      by destruct (String.eqb_spec (v1.ClusterIP (v1.svc_Spec svc)) "") as [-> |].
    + intros e' ->. unfold FindDNSIP; simpl. rewrite Hcore; simpl.
      by rewrite Hkube.
Qed.

End FindDNS.

Lemma FindDNSIP_fallback_witness :
  io.exec sample.legacy_cluster util.FindDNSIP 0%nat =
  (Go.Ok "10.0.0.10", 2%nat,
   [ io.EvGet "kube-system" "coredns";
     io.EvLog (io.Info 0 "Error getting coredns service. Falling back to kube-dns"
                       [("err", io.LogError sample.not_found)]);
     io.EvGet "kube-system" "kube-dns" ]) /\
  fst (fst (io.exec sample.unreachable util.FindDNSIP 0%nat)) = Go.Ok "".
Proof.
  split.
  - destruct (FindDNSIP_fallback sample.legacy_cluster 0%nat 1%nat None
                (Some sample.not_found) eq_refl) as [_ H].
    destruct (H sample.not_found (Some sample.kube_dns) None 2%nat eq_refl eq_refl)
      as [Hok _].
    exact (Hok sample.kube_dns eq_refl eq_refl).
  - destruct (FindDNSIP_fallback sample.unreachable 0%nat 1%nat None
                (Some sample.not_found) eq_refl) as [_ H].
    destruct (H sample.not_found None (Some sample.not_found) 2%nat eq_refl eq_refl)
      as [_ Hfail].
    rewrite (Hfail sample.not_found eq_refl). reflexivity.
Defined.

(** *** Host lookup against a DNS server *)

Section Lookup.
Import Go io util.
Context {W : Type} (world : World W).
Variable net_JoinHostPort : string -> string -> string.
Variable dns_Fqdn : string -> string.
Variable IP_String : dns.IP -> string.
Variable Sprintf_v : dns.RR -> string.

(** The loop appends, to what it was given, the addresses of the A records
    in answer order, logs every record, and never panics. *)
Lemma exec_LookupHost_answers (answer : list dns.RR) (iplist : list string) (w : W) :
  exec world (LookupHost_answers IP_String Sprintf_v answer iplist) w =
  (Ok ((iplist ++ spec.A_record_addresses IP_String answer)%list), w,
   spec.answer_logged Sprintf_v <$> answer).
Proof.
  revert iplist. induction answer as [| a rest IH]; intros iplist.
  - simpl. by rewrite app_nil_r.
  - cbn [LookupHost_answers]. change (exec world (_ ;; ?k) w) with
      (let '(r, w2, tr) := exec world k w in
       (r, w2, spec.answer_logged Sprintf_v a :: tr)).
    destruct a as [t | hdr target | hdr rdata]; simpl; rewrite IH; simpl.
    + by rewrite <- app_assoc.
    + reflexivity.
    + reflexivity.
Qed.

Lemma exec_bind_Ok {R S} (p : prog R) (f : R -> prog S) (w w1 : W) r tr :
  exec world p w = (Ok r, w1, tr) ->
  exec world (io.bind p f) w =
  (let '(s, w2, tr') := exec world (f r) w1 in (s, w2, (tr ++ tr')%list)).
Proof.
  revert w w1 r tr.
  induction p as [r0 | e | ns n k IH | k IH | m a k IH | e k IH];
    intros w w1 r tr; simpl.
  - intros [= -> -> <-]. by destruct (exec world (f r) w1) as [[? ?] ?].
  - discriminate.
  - destruct (Services_Get world ns n w) as [x w'].
    destruct (exec world (k x) w') as [[r' w''] tr''] eqn:Hk.
    intros [= -> -> <-]. cbn. rewrite (IH x _ _ _ _ Hk).
    by destruct (exec world (f r) w1) as [[? ?] ?].
  - destruct (Id_ world w) as [x w'].
    destruct (exec world (k x) w') as [[r' w''] tr''] eqn:Hk.
    intros [= -> -> <-]. cbn. rewrite (IH x _ _ _ _ Hk).
    by destruct (exec world (f r) w1) as [[? ?] ?].
  - destruct (Exchange world m a w) as [x w'].
    destruct (exec world (k x) w') as [[r' w''] tr''] eqn:Hk.
    intros [= -> -> <-]. cbn. rewrite (IH x _ _ _ _ Hk).
    by destruct (exec world (f r) w1) as [[? ?] ?].
  - destruct (exec world k w) as [[r' w''] tr''] eqn:Hk.
    intros [= -> -> <-]. cbn. rewrite (IH _ _ _ _ Hk).
    by destruct (exec world (f r) w1) as [[? ?] ?].
Qed.

(** C3: [LookupHost] makes one DNS exchange, an A question for the
    qualified host name sent to port 53 of the given server. It returns an
    error, with the nil list, exactly when that exchange returns one, and
    the error is the exchange's. When the exchange succeeds it returns, with
    no error, the addresses of exactly the A records of the answer section
    in their order; every other record (a CNAME, say) is dropped and not
    resolved further. *)
Theorem LookupHost_single_exchange
        (hostname serverip : string) (w w1 w2 : W) (id : Z)
        (in_ : ptr dns.Msg) (err : option error) :
  let m := dns.SetQuestion dns.new_Msg (dns_Fqdn hostname) dns.TypeA id in
  let addr := net_JoinHostPort serverip "53" in
  let run :=
    exec world
         (LookupHost net_JoinHostPort dns_Fqdn IP_String Sprintf_v hostname serverip) w in
  let called :=
    [ EvLog (Info 4 "LookupHost"
                  [("hostname", LogString hostname); ("serverIP", LogString serverip)]);
      EvId;
      EvExchange m addr ] in
  Id_ world w = (id, w1) ->
  Exchange world m addr w1 = (in_, err, w2) ->
  (forall e,
      err = Some e ->
      run = (Ok ([], Some e), w2,
             called ++
             [EvLog (Err (Some e) "DNS lookup failed"
                         [("hostname", LogString hostname)])])%list) /\
  (forall msg,
      err = None -> in_ = Some msg ->
      run = (Ok (spec.A_record_addresses IP_String (dns.Answer msg), None), w2,
             called ++ (spec.answer_logged Sprintf_v <$> dns.Answer msg))%list) /\
  (forall iplist e tr,
      run = (Ok (iplist, Some e), w2, tr) -> err = Some e /\ iplist = []).
Proof.
  intros m addr run called Hid Hex.
  assert (Hrun : run =
    let '(r, w3, tr) :=
      exec world
        (match err with
         | Some e =>
             log (Err (Some e) "DNS lookup failed" [("hostname", LogString hostname)]);;
             mret ([], Some e)
         | None =>
             msg ← lift (deref in_);
             iplist ← LookupHost_answers IP_String Sprintf_v (dns.Answer msg) [];
             mret (iplist, None)
         end) w2 in
    (r, w3, (called ++ tr)%list)).
  { unfold run, LookupHost, JoinHostPort; simpl.
    fold m. fold addr. rewrite Hid; simpl. fold m. rewrite Hex.
    by destruct (exec world _ w2) as [[? ?] ?]. }
  assert (Hok : forall msg, err = None -> in_ = Some msg ->
    run = (Ok (spec.A_record_addresses IP_String (dns.Answer msg), None), w2,
           called ++ (spec.answer_logged Sprintf_v <$> dns.Answer msg))%list).
  { intros msg -> ->. rewrite Hrun. cbn [lift deref].
    unfold mbind, prog_bind. cbn [bind].
    rewrite (exec_bind_Ok _ _ _ _ _ _ (exec_LookupHost_answers _ _ _)).
    simpl. by rewrite app_nil_r. }
  split; [| split].
  - intros e ->. rewrite Hrun. reflexivity.
  - exact Hok.
  - intros iplist e tr Hres. destruct err as [e' |].
    + rewrite Hrun in Hres. simpl in Hres. by injection Hres as -> ->.
    + destruct in_ as [msg |].
      * rewrite (Hok msg eq_refl eq_refl) in Hres. discriminate.
      * rewrite Hrun in Hres. discriminate.
Qed.

End Lookup.

Lemma LookupHost_single_exchange_witness :
  fst (fst (io.exec sample.legacy_cluster
              (util.LookupHost net.JoinHostPort sample.Fqdn sample.IP_String
                               sample.Sprintf_v "db.example" "10.0.0.10") 0%nat)) =
  Go.Ok (["10.1.2.3"; "10.1.2.4"], None) /\
  fst (fst (io.exec sample.unreachable
              (util.LookupHost net.JoinHostPort sample.Fqdn sample.IP_String
                               sample.Sprintf_v "db.example" "10.0.0.10") 0%nat)) =
  Go.Ok ([], Some {| Go.Error := "i/o timeout" |}).
Proof.
  split.
  - destruct (LookupHost_single_exchange sample.legacy_cluster net.JoinHostPort
                sample.Fqdn sample.IP_String sample.Sprintf_v
                "db.example" "10.0.0.10" 0%nat 0%nat 1%nat 4660 _ None
                eq_refl eq_refl) as (_ & Hok & _).
    rewrite (Hok _ eq_refl eq_refl). reflexivity.
  - destruct (LookupHost_single_exchange sample.unreachable net.JoinHostPort
                sample.Fqdn sample.IP_String sample.Sprintf_v
                "db.example" "10.0.0.10" 0%nat 0%nat 1%nat 4660 None _
                eq_refl eq_refl) as (Herr & _).
    rewrite (Herr _ eq_refl). reflexivity.
Defined.

(** ** Further properties of the package *)

(** *** Rounding: units, order, composition, edges *)

Section RoundUpMore.
Import Go util.

Lemma GiB_value : GiB = 2 ^ 30.
Proof. reflexivity. Qed.

(** The rounded-up quotient is below [n] exactly when [n] units suffice. *)
Lemma ceil_le_iff v u n :
  0 < u -> ((v + u - 1) / u <= n <-> v <= n * u).
Proof.
  intros Hu. split.
  - intros Hle.
    pose proof (Z.div_mod (v + u - 1) u ltac:(lia)) as Hdm.
    pose proof (Z.mod_pos_bound (v + u - 1) u Hu) as Hm. nia.
  - intros Hle. apply Z.lt_succ_r, Z.div_lt_upper_bound; [lia | nia].
Qed.

(** Without overflow of the sum the code computes a truncated quotient,
    for a volume of either sign. *)
Lemma RoundUpSize_quot v u :
  is_int64 v -> is_int64 u -> 0 < u -> v + u - 1 <= max_int64 ->
  RoundUpSize v u = Ok (Z.quot (v + u - 1) u).
Proof.
  intros Hv Hu Hu0 Hsum.
  unfold RoundUpSize, div64. rewrite sub64_add64.
  destruct (Z.eqb_spec u 0) as [-> | _]; [lia |].
  unfold is_int64, min_int64, max_int64 in *.
  rewrite (wrap64_id (v + u - 1)) by (unfold is_int64, min_int64, max_int64; lia).
  f_equal. apply wrap64_id. unfold is_int64, min_int64, max_int64.
  destruct (Z_lt_le_dec (v + u - 1) 0) as [Hneg | Hpos].
  - pose proof (quot_wrapped_bounds (v + u - 1) u). lia.
  - rewrite Z.quot_div_nonneg by lia.
    assert (0 <= (v + u - 1) / u <= v + u - 1); [| lia].
    split; [apply Z.div_pos; lia |].
    apply Z.div_le_upper_bound; [lia | nia].
Qed.

(** X1: for every size from 0 to [2^63 - 2^30] bytes, [RoundUpToGiB]
    returns the least number of gibibytes that holds the size: the result
    [r] is at most [n] exactly when [n * 2^30] bytes suffice; it lies
    between 0 and [2^33]. *)
Theorem RoundUpToGiB_least (sizeBytes : Z) :
  0 <= sizeBytes <= 2 ^ 63 - 2 ^ 30 ->
  exists r,
    RoundUpToGiB sizeBytes = Ok r /\
    (forall n, r <= n <-> sizeBytes <= n * 2 ^ 30) /\
    0 <= r <= 2 ^ 33.
Proof.
  intros Hs. exists ((sizeBytes + 2 ^ 30 - 1) / 2 ^ 30).
  split; [| split].
  - unfold RoundUpToGiB. rewrite GiB_value.
    apply RoundUpSize_exact; unfold is_int64, min_int64, max_int64; lia.
  - intros n. apply ceil_le_iff. lia.
  - split; [apply Z.div_pos; lia |].
    apply (ceil_le_iff sizeBytes (2 ^ 30) (2 ^ 33)); lia.
Qed.

Lemma RoundUpToGiB_least_witness :
  exists r,
    RoundUpToGiB (1500 * MiB) = Ok r /\
    (forall n, r <= n <-> 1500 * MiB <= n * 2 ^ 30) /\
    0 <= r <= 2 ^ 33.
Proof.
  apply (RoundUpToGiB_least (1500 * MiB)). vm_compute. intuition discriminate.
Defined.



(** X3: [RoundUpSize] is monotone in the volume size: for int64 sizes
    [v1 <= v2] of either sign and a positive unit, when the sum for [v2]
    does not overflow, the count for [v1] is at most the count for [v2]. *)
Theorem RoundUpSize_monotone v1 v2 u r1 r2 :
  is_int64 v1 -> is_int64 v2 -> is_int64 u -> 0 < u ->
  v1 <= v2 -> v2 + u - 1 <= max_int64 ->
  RoundUpSize v1 u = Ok r1 -> RoundUpSize v2 u = Ok r2 ->
  r1 <= r2.
Proof.
  intros Hv1 Hv2 Hu Hu0 Hle Hsum.
  rewrite !RoundUpSize_quot by (assumption || lia).
  intros [= <-] [= <-]. apply Z.quot_le_mono; lia.
Qed.

Lemma RoundUpSize_monotone_witness :
  RoundUpSize (- 5) GiB = Ok 0 /\
  RoundUpSize (1500 * MiB) GiB = Ok 2 /\
  0 <= 2.
Proof.
  split; [reflexivity |]. split; [reflexivity |].
  apply (RoundUpSize_monotone (- 5) (1500 * MiB) GiB 0 2);
    unfold is_int64; vm_compute; intuition discriminate.
Defined.

(** X4: rounding composes across units. For a non-negative size [v] and
    positive units [a] and [b] with [a * b] and [v + a * b - 1] within
    int64, rounding
    [v] up to units of [a] and the count up to groups of [b] gives what
    rounding [v] up to units of [a * b] gives (MiB, then 1024 of them, is
    GiB). *)
Theorem RoundUpSize_compose v a b :
  is_int64 v -> is_int64 (a * b) ->
  0 <= v -> 0 < a -> 0 < b -> v + a * b - 1 <= max_int64 ->
  (r ← RoundUpSize v a; RoundUpSize r b) = RoundUpSize v (a * b).
Proof.
  intros Hv Hunit Hv0 Ha Hb Hsum.
  unfold is_int64, min_int64, max_int64 in *.
  assert (Hab : a <= a * b) by nia.
  assert (Hb' : b <= a * b) by nia.
  rewrite (RoundUpSize_exact v a)
    by (unfold is_int64, min_int64, max_int64; lia).
  rewrite (RoundUpSize_exact v (a * b))
    by (unfold is_int64, min_int64, max_int64; nia).
  cbn [mbind result_bind bind].
  set (q := (v + a - 1) / a).
  assert (Hq : 0 <= q <= v).
  { split; [apply Z.div_pos; lia |]. apply (ceil_le_iff v a v); [lia | nia]. }
  rewrite (RoundUpSize_exact q b)
    by (unfold is_int64, min_int64, max_int64; lia).
  f_equal. apply Z.le_antisymm.
  - apply (proj2 (ceil_le_iff q b _ Hb)), (proj2 (ceil_le_iff v a _ Ha)).
    rewrite <- Z.mul_assoc, (Z.mul_comm b a).
    apply (proj1 (ceil_le_iff v (a * b) _ ltac:(lia))). lia.
  - apply (proj2 (ceil_le_iff v (a * b) _ ltac:(lia))).
    rewrite (Z.mul_comm a b), Z.mul_assoc.
    apply (proj1 (ceil_le_iff v a _ Ha)), (proj1 (ceil_le_iff q b _ Hb)). lia.
Qed.

Lemma RoundUpSize_compose_witness :
  (r ← RoundUpSize (1500 * MiB + 1) MiB; RoundUpSize r 1024) =
  RoundUpSize (1500 * MiB + 1) (MiB * 1024).
Proof.
  apply (RoundUpSize_compose (1500 * MiB + 1) MiB 1024);
    unfold is_int64; vm_compute; intuition discriminate.
Defined.

(** X5: a size that is already [k] whole units is left at [k]: for
    [0 <= k] and a positive unit with [k * u + u - 1] within int64,
    [RoundUpSize (k * u) u] is [k]. *)
Theorem RoundUpSize_exact_multiple k u :
  0 <= k -> 0 < u -> is_int64 u -> k * u + u - 1 <= max_int64 ->
  RoundUpSize (k * u) u = Ok k.
Proof.
  intros Hk Hu0 Hu Hsum.
  rewrite RoundUpSize_exact;
    [| unfold is_int64, min_int64, max_int64 in *; nia | assumption | nia
     | assumption | assumption ].
  f_equal. apply Z.le_antisymm.
  - apply ceil_le_iff; lia.
  - apply Z.div_le_lower_bound; nia.
Qed.

Lemma RoundUpSize_exact_multiple_witness :
  RoundUpSize (3 * GiB) GiB = Ok 3.
Proof.
  apply (RoundUpSize_exact_multiple 3 GiB);
    unfold is_int64; vm_compute; intuition discriminate.
Defined.

(** X6: for a non-positive int64 size [v] and a positive int64 unit [u]
    the sum [v + u - 1] does not wrap and [RoundUpSize] returns
    [quot (v + u - 1) u], the quotient truncated toward zero. That count is
    never positive, its units still hold the size, and it is 0 exactly when
    [v > -2u + 1]; so for [-2u + 1 < v <= -u] (which needs [u > 1]; [v = -u]
    is such a size) the result is 0 although -1 units would hold the
    size. *)
Theorem RoundUpSize_nonpositive v u :
  is_int64 v -> is_int64 u -> v <= 0 -> 0 < u ->
  sub64 (add64 v u) 1 = v + u - 1 /\
  RoundUpSize v u = Ok (Z.quot (v + u - 1) u) /\
  Z.quot (v + u - 1) u <= 0 /\
  v <= Z.quot (v + u - 1) u * u /\
  (RoundUpSize v u = Ok 0 <-> - 2 * u + 1 < v) /\
  (- 2 * u + 1 < v -> v <= - u ->
   RoundUpSize v u = Ok 0 /\ v <= (- 1) * u).
Proof.
  intros Hv Hu Hv0 Hu0.
  assert (Hrun : RoundUpSize v u = Ok (Z.quot (v + u - 1) u)).
  { unfold is_int64, min_int64, max_int64 in *.
    apply RoundUpSize_quot; unfold is_int64, min_int64, max_int64; lia. }
  assert (Hsum : sub64 (add64 v u) 1 = v + u - 1).
  { rewrite sub64_add64. apply wrap64_id.
    unfold is_int64, min_int64, max_int64 in *. lia. }
  unfold is_int64, min_int64, max_int64 in *.
  assert (Hq : Z.quot (v + u - 1) u <= 0 /\ v <= Z.quot (v + u - 1) u * u /\
               (Z.quot (v + u - 1) u = 0 <-> - 2 * u + 1 < v)).
  { destruct (Z_lt_le_dec (v + u - 1) 0) as [Hneg | Hpos].
    - pose proof (quot_wrapped_bounds (v + u - 1) u ltac:(lia) Hu0) as Hb.
      pose proof (Z.quot_rem' (v + u - 1) u) as Hqr.
      pose proof (Z.rem_bound_pos_neg (v + u - 1) u Hu0 ltac:(lia)) as Hr.
      split; [lia |]. split; [nia |]. split; intros H; nia.
    - rewrite Z.quot_small by lia. split; [lia |]. split; [lia |].
      split; [lia | reflexivity]. }
  destruct Hq as (Hle & Hhold & Hzero).
  split; [exact Hsum |]. split; [exact Hrun |].
  split; [exact Hle |]. split; [exact Hhold |]. split.
  - rewrite Hrun. split.
    + intros [= H0]. by apply Hzero.
    + intros H. f_equal. by apply Hzero.
  - intros Hsmall Hbig. split; [| lia].
    rewrite Hrun. f_equal. by apply Hzero.
Qed.

Lemma RoundUpSize_nonpositive_witness :
  RoundUpSize (- GiB) GiB = Ok 0 /\
  RoundUpSize (- 10) 2 = Ok (- 4) /\
  RoundUpSize (- 1) 1 = Ok (- 1).
Proof.
  split; [| split].
  - apply (RoundUpSize_nonpositive (- GiB) GiB);
      unfold is_int64; vm_compute; intuition discriminate.
  - apply (RoundUpSize_nonpositive (- 10) 2);
      unfold is_int64; vm_compute; intuition discriminate.
  - apply (RoundUpSize_nonpositive (- 1) 1);
      unfold is_int64; vm_compute; intuition discriminate.
Defined.

(** X7: [RoundUpSize] panics, with a division by zero, exactly when the
    allocation unit is 0; for every other unit, negative ones included, it
    returns an int64 value. *)
Theorem RoundUpSize_panics_iff_zero_unit v u :
  (RoundUpSize v u = Panic DivideByZero <-> u = 0) /\
  (u <> 0 -> exists r, RoundUpSize v u = Ok r /\ is_int64 r).
Proof.
  unfold RoundUpSize, div64.
  destruct (Z.eqb_spec u 0) as [-> | Hne].
  - split; [tauto | congruence].
  - split; [split; [discriminate | contradiction] |].
    intros _. eexists. split; [reflexivity | apply wrap64_is_int64].
Qed.

End RoundUpMore.

(** *** Access modes: containment as an order on mode lists *)

Section AccessModesMore.
Import util.
Implicit Types (modes indexedModes requestedModes : list v1.PersistentVolumeAccessMode).
Implicit Types (mode : v1.PersistentVolumeAccessMode).

(** X8: [AccessModesContainedInAll] is a preorder on mode lists: every
    list is contained in itself, and if [b] is contained in [a] and [c] in
    [b] then [c] is contained in [a]. *)
Theorem AccessModesContainedInAll_preorder :
  (forall modes, AccessModesContainedInAll modes modes = true) /\
  (forall a b c : list v1.PersistentVolumeAccessMode,
      AccessModesContainedInAll a b = true ->
      AccessModesContainedInAll b c = true ->
      AccessModesContainedInAll a c = true).
Proof.
  split.
  - intros modes. by apply AccessModesContainedInAll_subseteq.
  - intros a b c Hab Hbc.
    rewrite AccessModesContainedInAll_subseteq in *. auto.
Qed.

Lemma AccessModesContainedInAll_preorder_witness :
  AccessModesContainedInAll
    [v1.ReadWriteOnce; v1.ReadOnlyMany; v1.ReadWriteMany] [v1.ReadOnlyMany] = true.
Proof.
  apply (proj2 AccessModesContainedInAll_preorder
               [v1.ReadWriteOnce; v1.ReadOnlyMany; v1.ReadWriteMany]
               [v1.ReadWriteMany; v1.ReadOnlyMany]
               [v1.ReadOnlyMany]); reflexivity.
Defined.

(** X9: both membership checks split over concatenation: a mode is in
    [a ++ b] when it is in [a] or in [b], and [r1 ++ r2] is contained in
    the indexed modes when [r1] and [r2] both are. The empty request is
    contained in every list, the nil list included, and the nil list
    contains no other request. *)
Theorem AccessModesContainedInAll_app :
  (forall (a b : list v1.PersistentVolumeAccessMode) mode,
      AccessModesContains (a ++ b) mode =
      AccessModesContains a mode || AccessModesContains b mode) /\
  (forall indexedModes (r1 r2 : list v1.PersistentVolumeAccessMode),
      AccessModesContainedInAll indexedModes (r1 ++ r2) =
      AccessModesContainedInAll indexedModes r1 &&
      AccessModesContainedInAll indexedModes r2) /\
  (forall indexedModes, AccessModesContainedInAll indexedModes [] = true) /\
  (forall requestedModes,
      AccessModesContainedInAll [] requestedModes = true <-> requestedModes = []).
Proof.
  split; [| split; [| split]].
  - intros a b mode. induction a as [| m a IH]; simpl; [reflexivity |].
    by destruct (String.eqb m mode).
  - intros indexedModes r1 r2. induction r1 as [| m r1 IH]; simpl; [reflexivity |].
    by destruct (AccessModesContains indexedModes m).
  - reflexivity.
  - intros [| m rest]; simpl; [tauto |]. split; discriminate.
Qed.

(** X10: adding modes to the indexed list, at either end, never makes a
    contained request uncontained. *)
Theorem AccessModesContainedInAll_weaken
        (before after indexedModes requestedModes : list v1.PersistentVolumeAccessMode) :
  AccessModesContainedInAll indexedModes requestedModes = true ->
  AccessModesContainedInAll (before ++ indexedModes ++ after) requestedModes = true.
Proof.
  rewrite !AccessModesContainedInAll_subseteq. intros H mode Hin.
  rewrite !elem_of_app. right; left. by apply H.
Qed.

Lemma AccessModesContainedInAll_weaken_witness :
  AccessModesContainedInAll
    ([v1.ReadWriteMany] ++ [v1.ReadWriteOnce] ++ [v1.ReadOnlyMany])
    [v1.ReadWriteOnce] = true.
Proof.
  apply (AccessModesContainedInAll_weaken
           [v1.ReadWriteMany] [v1.ReadOnlyMany] [v1.ReadWriteOnce] [v1.ReadWriteOnce]).
  reflexivity.
Defined.

End AccessModesMore.

(** *** Accessors: nil descriptors and the other annotations *)

Section AccessorsMore.
Import Go util.

(** X11: each accessor panics, with a nil dereference, exactly when the
    descriptor pointer is nil; on every descriptor, whatever its
    annotations and optional fields, it returns a value. *)
Theorem accessors_panic_iff_nil_descriptor
        (volume : ptr v1.PersistentVolume) (claim : ptr v1.PersistentVolumeClaim) :
  (GetPersistentVolumeClass volume = Panic NilDereference <-> volume = None) /\
  (volume <> None -> exists class, GetPersistentVolumeClass volume = Ok class) /\
  (GetPersistentVolumeClaimClass claim = Panic NilDereference <-> claim = None) /\
  (claim <> None -> exists class, GetPersistentVolumeClaimClass claim = Ok class) /\
  (CheckPersistentVolumeClaimModeBlock claim = Panic NilDereference <-> claim = None) /\
  (claim <> None -> exists b, CheckPersistentVolumeClaimModeBlock claim = Ok b).
Proof.
  assert (Hv : forall vol, exists class, GetPersistentVolumeClass (Some vol) = Ok class).
  { intros vol. unfold GetPersistentVolumeClass; simpl.
    destruct (map_index _ _) as [class [|]]; eauto. }
  assert (Hc : forall c, exists class, GetPersistentVolumeClaimClass (Some c) = Ok class).
  { intros c. unfold GetPersistentVolumeClaimClass; simpl.
    destruct (map_index _ _) as [class [|]]; [eauto |].
    destruct (v1.pvc_StorageClassName (v1.pvc_Spec c)); simpl; eauto. }
  assert (Hb : forall c, exists b, CheckPersistentVolumeClaimModeBlock (Some c) = Ok b).
  { intros c. unfold CheckPersistentVolumeClaimModeBlock; simpl.
    destruct (v1.pvc_VolumeMode (v1.pvc_Spec c)); simpl; eauto. }
  destruct volume as [vol |], claim as [c |];
    repeat match goal with
           | |- _ /\ _ => split
           | |- _ <-> _ => split
           end;
    try reflexivity; try congruence; auto;
    intros H;
    try (destruct (Hv vol) as [x Hx]; congruence);
    try (destruct (Hc c) as [x Hx]; congruence);
    try (destruct (Hb c) as [x Hx]; congruence).
Qed.

(** X12: only the beta storage-class annotation matters to the class
    accessors. Setting or removing any other annotation changes neither
    result; setting the beta annotation to [class] makes both return
    [class]; removing it makes the volume accessor return the structured
    field and the claim accessor the pointed-to string or "". *)
Theorem class_accessors_annotation_frame
        (volume : v1.PersistentVolume) (claim : v1.PersistentVolumeClaim) :
  (forall key value,
      key <> v1.BetaStorageClassAnnotation ->
      GetPersistentVolumeClass
        (Some {| v1.pv_Annotations := <[key:=value]> (v1.pv_Annotations volume);
                 v1.pv_Spec := v1.pv_Spec volume |}) =
      GetPersistentVolumeClass (Some volume) /\
      GetPersistentVolumeClass
        (Some {| v1.pv_Annotations := delete key (v1.pv_Annotations volume);
                 v1.pv_Spec := v1.pv_Spec volume |}) =
      GetPersistentVolumeClass (Some volume) /\
      GetPersistentVolumeClaimClass
        (Some {| v1.pvc_Annotations := <[key:=value]> (v1.pvc_Annotations claim);
                 v1.pvc_Spec := v1.pvc_Spec claim |}) =
      GetPersistentVolumeClaimClass (Some claim) /\
      GetPersistentVolumeClaimClass
        (Some {| v1.pvc_Annotations := delete key (v1.pvc_Annotations claim);
                 v1.pvc_Spec := v1.pvc_Spec claim |}) =
      GetPersistentVolumeClaimClass (Some claim)) /\
  (forall class,
      GetPersistentVolumeClass
        (Some {| v1.pv_Annotations :=
                   <[v1.BetaStorageClassAnnotation:=class]> (v1.pv_Annotations volume);
                 v1.pv_Spec := v1.pv_Spec volume |}) = Ok class /\
      GetPersistentVolumeClaimClass
        (Some {| v1.pvc_Annotations :=
                   <[v1.BetaStorageClassAnnotation:=class]> (v1.pvc_Annotations claim);
                 v1.pvc_Spec := v1.pvc_Spec claim |}) = Ok class) /\
  GetPersistentVolumeClass
    (Some {| v1.pv_Annotations :=
               delete v1.BetaStorageClassAnnotation (v1.pv_Annotations volume);
             v1.pv_Spec := v1.pv_Spec volume |}) =
  Ok (v1.pv_StorageClassName (v1.pv_Spec volume)) /\
  GetPersistentVolumeClaimClass
    (Some {| v1.pvc_Annotations :=
               delete v1.BetaStorageClassAnnotation (v1.pvc_Annotations claim);
             v1.pvc_Spec := v1.pvc_Spec claim |}) =
  Ok (default "" (v1.pvc_StorageClassName (v1.pvc_Spec claim))).
Proof.
  unfold GetPersistentVolumeClass, GetPersistentVolumeClaimClass, map_index; simpl.
  split; [| split; [| split]].
  - intros key value Hne.
    rewrite !lookup_insert_ne, !lookup_delete_ne by done. done.
  - intros class. by rewrite !lookup_insert_eq.
  - by rewrite lookup_delete_eq.
  - rewrite lookup_delete_eq.
    by destruct (v1.pvc_StorageClassName (v1.pvc_Spec claim)).
Qed.

Lemma class_accessors_annotation_frame_witness :
  GetPersistentVolumeClass
    (Some {| v1.pv_Annotations :=
               <["pv.kubernetes.io/provisioned-by":="example.com/nfs"]>
                 (v1.pv_Annotations sample.fast_slow_volume);
             v1.pv_Spec := v1.pv_Spec sample.fast_slow_volume |}) =
  GetPersistentVolumeClass (Some sample.fast_slow_volume).
Proof.
  destruct (class_accessors_annotation_frame sample.fast_slow_volume
              sample.fast_slow_claim) as [Hframe _].
  apply (Hframe "pv.kubernetes.io/provisioned-by" "example.com/nfs").
  discriminate.
Defined.

End AccessorsMore.

(** *** Cluster DNS discovery: calls made, panics, origin of the result *)

Section FindDNSMore.
Import Go io util.
Context {W : Type} (world : World W).

Lemma exec_FindDNSIP_found_nil (w : W) :
  exec world (FindDNSIP_found None) w = (Panic NilDereference, w, []).
Proof. reflexivity. Qed.

(** One run of [FindDNSIP], by the answers of the client. *)
Lemma exec_FindDNSIP (w : W) :
  exec world FindDNSIP w =
  let '(coredns, err, w1) := Services_Get world metav1.NamespaceSystem "coredns" w in
  match err with
  | Some e =>
      let '(kubedns, err', w2) :=
        Services_Get world metav1.NamespaceSystem "kube-dns" w1 in
      match err' with
      | Some e' =>
          (Ok "", w2,
           [ EvGet "kube-system" "coredns";
             EvLog (Info 0 "Error getting coredns service. Falling back to kube-dns"
                         [("err", LogError e)]);
             EvGet "kube-system" "kube-dns";
             EvLog (Err (Some e') "Error getting kube-dns service" []) ])
      | None =>
          let '(r, w3, tr) := exec world (FindDNSIP_found kubedns) w2 in
          (r, w3,
           EvGet "kube-system" "coredns" ::
           EvLog (Info 0 "Error getting coredns service. Falling back to kube-dns"
                       [("err", LogError e)]) ::
           EvGet "kube-system" "kube-dns" :: tr)
      end
  | None =>
      let '(r, w3, tr) := exec world (FindDNSIP_found coredns) w1 in
      (r, w3, EvGet "kube-system" "coredns" :: tr)
  end.
Proof.
  unfold FindDNSIP; simpl.
  destruct (Services_Get world metav1.NamespaceSystem "coredns" w)
    as [[coredns [e |]] w1]; simpl.
  - destruct (Services_Get world metav1.NamespaceSystem "kube-dns" w1)
      as [[kubedns [e' |]] w2]; [reflexivity |].
    by destruct (exec world (FindDNSIP_found kubedns) w2) as [[r w3] tr].
  - by destruct (exec world (FindDNSIP_found coredns) w1) as [[r w3] tr].
Qed.

Lemma calls_FindDNSIP_found (dnssvc : ptr v1.Service) (w : W) :
  trace.calls (snd (exec world (FindDNSIP_found dnssvc) w)) = [].
Proof.
  destruct dnssvc as [svc |]; [| reflexivity].
  rewrite exec_FindDNSIP_found.
  by destruct (String.eqb (v1.ClusterIP (v1.svc_Spec svc)) "").
Qed.

(** X13: given a client that answers its calls (so not the nil
    interface, on which the first call itself panics), whatever the
    answers are and whether the run then returns or panics, [FindDNSIP]
    calls the client for "coredns" first, calls it for "kube-dns" exactly
    when that first call returned an error, and makes no other outward
    call (no DNS traffic). *)
Theorem FindDNSIP_calls (w w1 : W) (coredns : ptr v1.Service) (err : option error) :
  Services_Get world metav1.NamespaceSystem "coredns" w = (coredns, err, w1) ->
  trace.calls (snd (exec world FindDNSIP w)) =
  EvGet "kube-system" "coredns" ::
  match err with
  | Some _ => [EvGet "kube-system" "kube-dns"]
  | None => []
  end.
Proof.
  intros Hcore. rewrite exec_FindDNSIP, Hcore.
  destruct err as [e |].
  - destruct (Services_Get world metav1.NamespaceSystem "kube-dns" w1)
      as [[kubedns [e' |]] w2]; [reflexivity |].
    pose proof (calls_FindDNSIP_found kubedns w2) as Hc.
    destruct (exec world (FindDNSIP_found kubedns) w2) as [[r w3] tr].
    simpl in *. by rewrite Hc.
  - pose proof (calls_FindDNSIP_found coredns w1) as Hc.
    destruct (exec world (FindDNSIP_found coredns) w1) as [[r w3] tr].
    simpl in *. by rewrite Hc.
Qed.

(** X14: given a client that answers its calls (so not the nil
    interface), [FindDNSIP] panics, with a nil dereference, exactly when
    the lookup it relies on returned a nil service together with a nil
    error: the "coredns" lookup, or the "kube-dns" lookup after "coredns"
    failed. For every other pair of answers it returns a string. *)
Theorem FindDNSIP_panics_iff
        (w w1 w2 : W) (coredns kubedns : ptr v1.Service) (err err' : option error) :
  Services_Get world metav1.NamespaceSystem "coredns" w = (coredns, err, w1) ->
  Services_Get world metav1.NamespaceSystem "kube-dns" w1 = (kubedns, err', w2) ->
  (fst (fst (exec world FindDNSIP w)) = Panic NilDereference <->
   (err = None /\ coredns = None) \/
   (err <> None /\ err' = None /\ kubedns = None)) /\
  (fst (fst (exec world FindDNSIP w)) <> Panic NilDereference ->
   exists dnsip, fst (fst (exec world FindDNSIP w)) = Ok dnsip).
Proof.
  intros Hcore Hkube. rewrite exec_FindDNSIP, Hcore.
  destruct err as [e |].
  - rewrite Hkube. destruct err' as [e' |]; simpl.
    + split; [| eauto]. split; [discriminate |].
      intros [[? _] | (_ & ? & _)]; discriminate.
    + destruct kubedns as [svc |].
      * rewrite exec_FindDNSIP_found; simpl. split; [| eauto].
        split; [discriminate |].
        intros [[? _] | (_ & _ & ?)]; discriminate.
      * simpl. split; [| congruence]. split; [| reflexivity].
        intros _. right. repeat split; congruence.
  - destruct coredns as [svc |].
    + rewrite exec_FindDNSIP_found; simpl. split; [| eauto].
      split; [discriminate |].
      intros [[_ ?] | (? & _)]; [discriminate | congruence].
    + simpl. split; [| congruence]. split; [| reflexivity].
      intros _. by left.
Qed.

(** X15: a non-empty string returned by [FindDNSIP] is the [ClusterIP] of
    a service that the client returned, with a nil error, for "coredns" or
    for "kube-dns" in the system namespace; the state left behind is the
    client's state after that call. *)
Theorem FindDNSIP_nonempty_is_ClusterIP
        (w w' : W) (dnsip : string) (tr : list event) :
  exec world FindDNSIP w = (Ok dnsip, w', tr) ->
  dnsip <> "" ->
  exists name w0 svc,
    (name = "coredns" \/ name = "kube-dns") /\
    Services_Get world "kube-system" name w0 = (Some svc, None, w') /\
    v1.ClusterIP (v1.svc_Spec svc) = dnsip.
Proof.
  rewrite exec_FindDNSIP.
  destruct (Services_Get world metav1.NamespaceSystem "coredns" w)
    as [[coredns [e |]] w1] eqn:Hcore.
  - destruct (Services_Get world metav1.NamespaceSystem "kube-dns" w1)
      as [[kubedns [e' |]] w2] eqn:Hkube.
    + intros [= <- <- <-]. congruence.
    + destruct kubedns as [svc |]; [| discriminate].
      rewrite exec_FindDNSIP_found. intros [= <- <- <-] _.
      exists "kube-dns", w1, svc. auto.
  - destruct coredns as [svc |]; [| discriminate].
    rewrite exec_FindDNSIP_found. intros [= <- <- <-] _.
    exists "coredns", w, svc. auto.
Qed.

End FindDNSMore.

Lemma FindDNSIP_calls_witness :
  trace.calls (snd (io.exec sample.legacy_cluster util.FindDNSIP 0%nat)) =
  [io.EvGet "kube-system" "coredns"; io.EvGet "kube-system" "kube-dns"].
Proof.
  apply (FindDNSIP_calls sample.legacy_cluster 0%nat 1%nat None
                         (Some sample.not_found) eq_refl).
Defined.

Lemma FindDNSIP_panics_iff_witness :
  exists dnsip,
    fst (fst (io.exec sample.legacy_cluster util.FindDNSIP 0%nat)) = Go.Ok dnsip.
Proof.
  destruct (FindDNSIP_panics_iff sample.legacy_cluster 0%nat 1%nat 2%nat
              None (Some sample.kube_dns) (Some sample.not_found) None
              eq_refl eq_refl) as [_ Hok].
  apply Hok. discriminate.
Defined.

Lemma FindDNSIP_nonempty_is_ClusterIP_witness :
  exists name w0 svc,
    (name = "coredns" \/ name = "kube-dns") /\
    io.Services_Get sample.legacy_cluster "kube-system" name w0 =
    (Some svc, None, 2%nat) /\
    v1.ClusterIP (v1.svc_Spec svc) = "10.0.0.10".
Proof.
  apply (FindDNSIP_nonempty_is_ClusterIP sample.legacy_cluster 0%nat 2%nat
           "10.0.0.10"
           [ io.EvGet "kube-system" "coredns";
             io.EvLog (io.Info 0 "Error getting coredns service. Falling back to kube-dns"
                               [("err", io.LogError sample.not_found)]);
             io.EvGet "kube-system" "kube-dns" ]).
  - reflexivity.
  - discriminate.
Defined.

(** *** Host lookup: what the list holds, calls made, panics *)

Section LookupMore.
Import Go io util.
Context {W : Type} (world : World W).
Variable net_JoinHostPort : string -> string -> string.
Variable dns_Fqdn : string -> string.
Variable IP_String : dns.IP -> string.
Variable Sprintf_v : dns.RR -> string.

(** One run of [LookupHost], by the answers of the DNS library. *)
Lemma exec_LookupHost (hostname serverip : string) (w : W) :
  exec world
       (LookupHost net_JoinHostPort dns_Fqdn IP_String Sprintf_v hostname serverip) w =
  let '(id, w1) := Id_ world w in
  let m := dns.SetQuestion dns.new_Msg (dns_Fqdn hostname) dns.TypeA id in
  let addr := net_JoinHostPort serverip "53" in
  let called :=
    [ EvLog (Info 4 "LookupHost"
                  [("hostname", LogString hostname); ("serverIP", LogString serverip)]);
      EvId;
      EvExchange m addr ] in
  let '(in_, err, w2) := Exchange world m addr w1 in
  match err, in_ with
  | Some e, _ =>
      (Ok ([], Some e), w2,
       called ++ [EvLog (Err (Some e) "DNS lookup failed"
                             [("hostname", LogString hostname)])])%list
  | None, Some msg =>
      (Ok (spec.A_record_addresses IP_String (dns.Answer msg), None), w2,
       called ++ (spec.answer_logged Sprintf_v <$> dns.Answer msg))%list
  | None, None => (Panic NilDereference, w2, called)
  end.
Proof.
  unfold LookupHost, JoinHostPort; simpl.
  destruct (Id_ world w) as [id w1]; simpl.
  destruct (Exchange world _ _ w1) as [[in_ [e |]] w2]; simpl; [reflexivity |].
  destruct in_ as [msg |]; simpl; [| reflexivity].
  unfold mbind, prog_bind.
  rewrite (exec_bind_Ok _ _ _ _ _ _ _ (exec_LookupHost_answers _ _ _ _ _ _)).
  simpl. by rewrite app_nil_r.
Qed.

Lemma A_record_addresses_length (answer : list dns.RR) :
  length (spec.A_record_addresses IP_String answer) = trace.count_A answer.
Proof.
  unfold trace.count_A.
  induction answer as [| [t | hdr target | hdr rdata] rest IH]; simpl;
    [reflexivity | by rewrite <- IH | exact IH | exact IH].
Qed.

Lemma count_A_le (answer : list dns.RR) :
  (trace.count_A answer <= length answer)%nat.
Proof. unfold trace.count_A. apply List.filter_length_le. Qed.

(** X16: after a successful exchange the list returned by [LookupHost]
    holds one address per A record of the answer section and nothing
    else: an address is in the list exactly when it is the text of the
    address of some A record; the length of the list is the number of A
    records, at most the length of the answer section; the list is nil,
    still with no error, exactly when the answer has no A record. *)
Theorem LookupHost_addresses
        (hostname serverip : string) (w w1 w2 : W) (id : Z) (msg : dns.Msg) :
  Id_ world w = (id, w1) ->
  Exchange world (dns.SetQuestion dns.new_Msg (dns_Fqdn hostname) dns.TypeA id)
           (net_JoinHostPort serverip "53") w1 = (Some msg, None, w2) ->
  exists iplist,
    fst (exec world
              (LookupHost net_JoinHostPort dns_Fqdn IP_String Sprintf_v
                          hostname serverip) w) =
    (Ok (iplist, None), w2) /\
    (forall ip, ip ∈ iplist <->
                exists t, dns.RR_A t ∈ dns.Answer msg /\ ip = IP_String (dns.A_A t)) /\
    length iplist = trace.count_A (dns.Answer msg) /\
    (length iplist <= length (dns.Answer msg))%nat /\
    (iplist = [] <-> trace.count_A (dns.Answer msg) = 0%nat).
Proof.
  intros Hid Hex. exists (spec.A_record_addresses IP_String (dns.Answer msg)).
  split; [| split; [| split; [| split]]].
  - rewrite exec_LookupHost, Hid; simpl. by rewrite Hex.
  - intros ip. unfold spec.A_record_addresses. rewrite list_elem_of_omap. split.
    + intros ([t | |] & Hin & Heq); [| discriminate | discriminate].
      exists t. split; [assumption | congruence].
    + intros (t & Hin & ->). exists (dns.RR_A t). by split.
  - apply A_record_addresses_length.
  - rewrite A_record_addresses_length. apply count_A_le.
  - rewrite <- A_record_addresses_length.
    destruct (spec.A_record_addresses IP_String (dns.Answer msg)); simpl.
    + tauto.
    + split; discriminate.
Qed.


End LookupMore.

Lemma LookupHost_addresses_witness :
  exists iplist,
    fst (io.exec sample.legacy_cluster
              (util.LookupHost net.JoinHostPort sample.Fqdn sample.IP_String
                               sample.Sprintf_v "db.example" "10.0.0.10") 0%nat) =
    (Go.Ok (iplist, None), 1%nat) /\
    (forall ip, ip ∈ iplist <->
                exists t, dns.RR_A t ∈ sample.answers /\
                          ip = sample.IP_String (dns.A_A t)) /\
    length iplist = 2%nat /\
    (length iplist <= 3)%nat /\
    (iplist = [] <-> 2%nat = 0%nat).
Proof.
  apply (LookupHost_addresses sample.legacy_cluster net.JoinHostPort
           sample.Fqdn sample.IP_String sample.Sprintf_v
           "db.example" "10.0.0.10" 0%nat 0%nat 1%nat 4660
           {| dns.Id := 4660; dns.RecursionDesired := true;
              dns.Question_ :=
                [ {| dns.Name := "db.example."; dns.Qtype := dns.TypeA;
                     dns.Qclass := dns.ClassINET |} ];
              dns.Answer := sample.answers |}
           eq_refl eq_refl).
Defined.


(** *** Host and port helpers: round trips *)

Section HostPortMore.
Import Go net.

Lemma append_cons a s t : String a s +:+ t = String a (s +:+ t).
Proof. reflexivity. Qed.

Lemma append_assoc s t r : (s +:+ t) +:+ r = s +:+ (t +:+ r).
Proof.
  induction s as [| a s IH]; [reflexivity |].
  by rewrite !append_cons, IH.
Qed.

Lemma slice_suffix s t : slice (s +:+ t) (len s) (len (s +:+ t)) = t.
Proof.
  unfold slice, len. rewrite length_app, Nat2Z.id.
  replace (Z.to_nat _) with (String.length t) by lia.
  apply substring_suffix.
Qed.

Lemma IndexByteString_app s t c :
  has_byte s c = false -> IndexByteString (s +:+ String c t) c = len s.
Proof.
  intros Hs. unfold len. induction s as [| a s IH].
  - change (IndexByteString (String c t) c = 0).
    cbn [IndexByteString]. by rewrite Ascii.eqb_refl.
  - cbn in Hs. apply orb_false_iff in Hs as [Ha Hs].
    rewrite append_cons. cbn [IndexByteString]. rewrite Ha, (IH Hs).
    cbn [String.length]. destruct (Z.ltb_spec (Z.of_nat (String.length s)) 0); lia.
Qed.

(** A bracketed host followed by a colon and a port splits into the host,
    without its brackets, and the port. *)
Lemma SplitHostPort_bracketed host port :
  has_byte host "[" = false -> has_byte host "]" = false ->
  has_byte port ":" = false -> has_byte port "[" = false ->
  has_byte port "]" = false ->
  net.SplitHostPort ("[" +:+ host +:+ "]:" +:+ port) = (host, port, None).
Proof.
  intros Hhl Hhr Hpc Hpl Hpr.
  set (hostport := "[" +:+ host +:+ "]:" +:+ port).
  assert (E1 : hostport = ("[" +:+ host +:+ "]") +:+ String ":" port).
  { unfold hostport. by rewrite !append_assoc. }
  assert (E2 : hostport = ("[" +:+ host) +:+ String "]" (":" +:+ port)).
  { unfold hostport. by rewrite !append_assoc. }
  assert (E3 : hostport = ("[" +:+ host +:+ "]:") +:+ port).
  { unfold hostport. by rewrite !append_assoc. }
  assert (E0 : hostport = "[" +:+ (host +:+ "]:" +:+ port)) by reflexivity.
  assert (L1 : len ("[" +:+ host +:+ "]") = len host + 2).
  { unfold len. rewrite !length_app. cbn [String.length]. lia. }
  assert (L3 : len ("[" +:+ host +:+ "]:") = len host + 3).
  { unfold len. rewrite !length_app. cbn [String.length]. lia. }
  assert (Llen : len hostport = len host + 3 + len port).
  { rewrite E3. unfold len in *. rewrite length_app. lia. }
  assert (Hi : LastIndexByteString hostport ":" = len host + 2).
  { rewrite E1, <- L1. by apply LastIndexByteString_app. }
  assert (Hend : IndexByteString hostport "]" = len host + 1).
  { rewrite E2, IndexByteString_app.
    - unfold len. rewrite !length_app. cbn [String.length]. lia.
    - rewrite has_byte_app. cbn. exact Hhr. }
  assert (Hlen0 : 0 <= len host) by (unfold len; lia).
  assert (Hlenp : 0 <= len port) by (unfold len; lia).
  unfold net.SplitHostPort. fold hostport. rewrite Hi, Hend.
  rewrite (proj2 (Z.ltb_ge _ 0)) by lia.
  rewrite bool_decide_eq_true_2 by reflexivity.
  rewrite (proj2 (Z.ltb_ge _ 0)) by lia.
  rewrite (proj2 (Z.eqb_neq _ _)) by lia.
  rewrite (proj2 (Z.eqb_eq _ _)) by lia.
  assert (S1 : slice hostport 1 (len hostport) = host +:+ "]:" +:+ port).
  { rewrite E0 at 1 2. apply (slice_suffix "[" _). }
  assert (S2 : slice hostport (len host + 1 + 1) (len hostport) = String ":" port).
  { replace (len host + 1 + 1) with (len ("[" +:+ host +:+ "]")) by lia.
    rewrite E1 at 1 2. apply slice_suffix. }
  assert (S3 : slice hostport (len host + 2 + 1) (len hostport) = port).
  { replace (len host + 2 + 1) with (len ("[" +:+ host +:+ "]:")) by lia.
    rewrite E3 at 1 2. apply slice_suffix. }
  assert (S4 : slice hostport 1 (len host + 1) = host).
  { unfold slice, len.
    change hostport with (String "[" (host +:+ "]:" +:+ port)).
    replace (Z.to_nat (Z.of_nat (String.length host) + 1 - 1))
      with (String.length host) by lia.
    change (Z.to_nat 1) with 1%nat. cbn [String.substring].
    apply substring_prefix. }
  rewrite S1, S2, S3, S4.
  rewrite IndexByteString_absent
    by (rewrite has_byte_app, Hhl; cbn; exact Hpl).
  rewrite IndexByteString_absent by (cbn; exact Hpr).
  reflexivity.
Qed.

Lemma JoinHostPort_nonempty (join : string -> string -> string) host port :
  port <> "" -> util.JoinHostPort join host port = join host port.
Proof.
  intros Hne. unfold util.JoinHostPort. by destruct (String.eqb_spec port "").
Qed.

(** X18: splitting what was joined gives the parts back. For any parser
    and join: whenever the parser splits the joined text of [host] and a
    non-empty [port] into the two, so does [SplitHostPort] after
    [JoinHostPort]. With the standard functions this holds for every host
    and every port, the empty port included, that are both free of colons
    and brackets, and for every bracket-free host that contains a colon
    with a non-empty port free of colons and brackets. But for [a] and [b]
    free of colons and brackets, the host [a:b] joined with the empty port
    comes back as host [a] and port [b]. *)
Theorem SplitHostPort_JoinHostPort :
  (forall (split : string -> string * string * option error)
          (join : string -> string -> string) host port,
      port <> "" ->
      split (join host port) = (host, port, None) ->
      util.SplitHostPort split (util.JoinHostPort join host port) = (host, port)) /\
  (forall host port,
      has_byte host ":" = false -> has_byte host "[" = false ->
      has_byte host "]" = false ->
      has_byte port ":" = false -> has_byte port "[" = false ->
      has_byte port "]" = false ->
      util.SplitHostPort net.SplitHostPort
        (util.JoinHostPort net.JoinHostPort host port) = (host, port)) /\
  (forall host port,
      has_byte host ":" = true -> has_byte host "[" = false ->
      has_byte host "]" = false ->
      port <> "" ->
      has_byte port ":" = false -> has_byte port "[" = false ->
      has_byte port "]" = false ->
      util.SplitHostPort net.SplitHostPort
        (util.JoinHostPort net.JoinHostPort host port) = (host, port)) /\
  (forall a b,
      has_byte a ":" = false -> has_byte a "[" = false -> has_byte a "]" = false ->
      has_byte b ":" = false -> has_byte b "[" = false -> has_byte b "]" = false ->
      util.SplitHostPort net.SplitHostPort
        (util.JoinHostPort net.JoinHostPort (a +:+ ":" +:+ b) "") = (a, b)).
Proof.
  split; [| split; [| split]].
  - intros split join host port Hne Hsplit.
    rewrite JoinHostPort_nonempty by done.
    unfold util.SplitHostPort. by rewrite Hsplit.
  - intros host port Hhc Hhl Hhr Hpc Hpl Hpr.
    destruct (String.eqb_spec port "") as [-> | Hne].
    + cbn. unfold util.SplitHostPort.
      by rewrite (SplitHostPort_no_colon _ Hhc).
    + rewrite JoinHostPort_nonempty by done.
      unfold net.JoinHostPort, util.SplitHostPort.
      rewrite (IndexByteString_absent _ _ Hhc). cbn [Z.leb Z.compare].
      by rewrite SplitHostPort_plain.
  - intros host port Hhc Hhl Hhr Hne Hpc Hpl Hpr.
    rewrite JoinHostPort_nonempty by done.
    unfold net.JoinHostPort, util.SplitHostPort.
    rewrite (proj2 (Z.leb_le 0 _) (IndexByteString_present _ _ Hhc)).
    by rewrite SplitHostPort_bracketed.
  - intros a b; intros. cbn [util.JoinHostPort String.eqb negb].
    unfold util.SplitHostPort. by rewrite SplitHostPort_plain.
Qed.

Lemma SplitHostPort_JoinHostPort_witness :
  util.SplitHostPort net.SplitHostPort
    (util.JoinHostPort net.JoinHostPort "fd00::10" "53") = ("fd00::10", "53") /\
  util.SplitHostPort net.SplitHostPort
    (util.JoinHostPort net.JoinHostPort "kube-dns.kube-system.svc" "") =
  ("kube-dns.kube-system.svc", "") /\
  util.SplitHostPort net.SplitHostPort
    (util.JoinHostPort net.JoinHostPort ("host" +:+ ":" +:+ "53") "") = ("host", "53").
Proof.
  destruct SplitHostPort_JoinHostPort as (_ & Hplain & Hv6 & Hedge).
  split; [| split].
  - apply (Hv6 "fd00::10" "53"); (reflexivity || discriminate).
  - apply (Hplain "kube-dns.kube-system.svc" ""); reflexivity.
  - apply (Hedge "host" "53"); reflexivity.
Defined.

(** X19: joining what was split. For any parser and join, an input the
    parser rejects is given back whole by [JoinHostPort] after
    [SplitHostPort]. With the standard functions, for [host] and [port]
    free of colons and brackets, [host:port] is given back unchanged when
    the port is not empty and loses its colon when it is ([host:] becomes
    [host]). For a bracket-free [host] and a [port] free of colons and
    brackets, [[host]:port] with the empty port comes back as [host]
    alone; with a non-empty port it is given back unchanged when [host]
    contains a colon and loses its brackets when it does not. *)
Theorem JoinHostPort_SplitHostPort :
  (forall (split : string -> string * string * option error)
          (join : string -> string -> string) hostport host port (e : error),
      split hostport = (host, port, Some e) ->
      util.JoinHostPort join (fst (util.SplitHostPort split hostport))
                        (snd (util.SplitHostPort split hostport)) = hostport) /\
  (forall host port,
      has_byte host ":" = false -> has_byte host "[" = false ->
      has_byte host "]" = false ->
      has_byte port ":" = false -> has_byte port "[" = false ->
      has_byte port "]" = false ->
      util.JoinHostPort net.JoinHostPort
        (fst (util.SplitHostPort net.SplitHostPort (host +:+ ":" +:+ port)))
        (snd (util.SplitHostPort net.SplitHostPort (host +:+ ":" +:+ port))) =
      if String.eqb port "" then host else host +:+ ":" +:+ port) /\
  (forall host port,
      has_byte host "[" = false -> has_byte host "]" = false ->
      has_byte port ":" = false -> has_byte port "[" = false ->
      has_byte port "]" = false ->
      util.JoinHostPort net.JoinHostPort
        (fst (util.SplitHostPort net.SplitHostPort ("[" +:+ host +:+ "]:" +:+ port)))
        (snd (util.SplitHostPort net.SplitHostPort ("[" +:+ host +:+ "]:" +:+ port))) =
      if String.eqb port "" then host
      else if has_byte host ":" then "[" +:+ host +:+ "]:" +:+ port
      else host +:+ ":" +:+ port).
Proof.
  split; [| split].
  - intros split join hostport host port e Hsplit.
    unfold util.SplitHostPort. by rewrite Hsplit.
  - intros host port Hhc Hhl Hhr Hpc Hpl Hpr.
    unfold util.SplitHostPort. rewrite SplitHostPort_plain by done.
    cbn [fst snd]. destruct (String.eqb_spec port "") as [-> | Hne]; [reflexivity |].
    rewrite JoinHostPort_nonempty by done.
    unfold net.JoinHostPort. by rewrite (IndexByteString_absent _ _ Hhc).
  - intros host port Hhl Hhr Hpc Hpl Hpr.
    unfold util.SplitHostPort. rewrite SplitHostPort_bracketed by done.
    cbn [fst snd]. destruct (String.eqb_spec port "") as [-> | Hne]; [reflexivity |].
    rewrite JoinHostPort_nonempty by done.
    unfold net.JoinHostPort. destruct (has_byte host ":") eqn:Hc.
    + by rewrite (proj2 (Z.leb_le 0 _) (IndexByteString_present _ _ Hc)).
    + by rewrite (IndexByteString_absent _ _ Hc).
Qed.

Lemma JoinHostPort_SplitHostPort_witness :
  util.JoinHostPort net.JoinHostPort
    (fst (util.SplitHostPort net.SplitHostPort "::1:53"))
    (snd (util.SplitHostPort net.SplitHostPort "::1:53")) = "::1:53" /\
  util.JoinHostPort net.JoinHostPort
    (fst (util.SplitHostPort net.SplitHostPort ("host" +:+ ":" +:+ "")))
    (snd (util.SplitHostPort net.SplitHostPort ("host" +:+ ":" +:+ ""))) = "host" /\
  util.JoinHostPort net.JoinHostPort
    (fst (util.SplitHostPort net.SplitHostPort ("[" +:+ "host" +:+ "]:" +:+ "53")))
    (snd (util.SplitHostPort net.SplitHostPort ("[" +:+ "host" +:+ "]:" +:+ "53"))) =
  "host:53" /\
  util.JoinHostPort net.JoinHostPort
    (fst (util.SplitHostPort net.SplitHostPort ("[" +:+ "::1" +:+ "]:" +:+ "")))
    (snd (util.SplitHostPort net.SplitHostPort ("[" +:+ "::1" +:+ "]:" +:+ ""))) =
  "::1" /\
  util.JoinHostPort net.JoinHostPort
    (fst (util.SplitHostPort net.SplitHostPort ("[" +:+ "::1" +:+ "]:" +:+ "53")))
    (snd (util.SplitHostPort net.SplitHostPort ("[" +:+ "::1" +:+ "]:" +:+ "53"))) =
  "[::1]:53".
Proof.
  destruct JoinHostPort_SplitHostPort as (Hfail & Hplain & Hbr).
  split; [| split; [| split; [| split]]].
  - apply (Hfail net.SplitHostPort net.JoinHostPort "::1:53" "" ""
                 (net.AddrError net.tooManyColons "::1:53")).
    reflexivity.
  - apply (Hplain "host" ""); reflexivity.
  - apply (Hbr "host" "53"); reflexivity.
  - apply (Hbr "::1" ""); reflexivity.
  - apply (Hbr "::1" "53"); reflexivity.
Defined.

End HostPortMore.
